(** * opkg: the curl download backend (libopkg/opkg_download_curl.c)

    A shallow embedding of the cache validation and resumable transfer
    code of libopkg/opkg_download_curl.c, and the properties of it that the
    specification states.

    - C strings used as paths, URLs and log text are [string]s.
    - A [char *] that the code walks with pointer arithmetic is the list of
      memory cells found from the pointer on ([cptr]).
    - The file system is a finite map from paths to contents; the ways in
      which libc calls can fail are fixed by an [env]ironment.
    - libcurl is an oracle of the environment: a request made with a given
      handle configuration yields a [response]. *)

From stdpp Require Import gmap strings list.
From Stdlib Require Import ZArith Ascii Lia.
From Stdlib Require String.

Local Open Scope Z_scope.

(** ** Characters and C strings *)

Definition NUL : ascii := "000"%char.
Definition LF : ascii := "010"%char.
Definition DQUOTE : ascii := ascii_of_nat 34.

Definition chars (s : string) : list ascii := String.list_ascii_of_string s.
Definition text (l : list ascii) : string := String.string_of_list_ascii l.

(** The line terminator of the log format strings. *)
Definition nl : string := String LF EmptyString.

(** [(int) x] for a [size_t] value [x], on a platform with 32-bit [int]. *)
Definition to_int (z : Z) : Z := (z + 2 ^ 31) mod 2 ^ 32 - 2 ^ 31.

(** The cells of memory seen through a [char *]: the cell it points to and
    the cells after it.  Cells past the end of the list read as [NUL], so a
    list describes every memory that agrees with it up to the first [NUL]
    that follows the listed cells. *)
Definition cptr : Type := list ascii.

(** [*p] *)
Definition deref (p : cptr) : ascii := hd NUL p.

(** [p + n] *)
Definition ptr_add (p : cptr) (n : nat) : cptr := drop n p.

Fixpoint strlen (p : cptr) : nat :=
  match p with
  | [] => 0%nat
  | c :: q => if decide (c = NUL) then 0%nat else S (strlen q)
  end.

(** [memcmp(buf, p, n)], where [buf] holds at least [n] bytes: zero when
    the first [n] bytes agree.  Only its being zero or not is observed. *)
Definition byte_at (p : cptr) (i : nat) : ascii := nth i p NUL.

Fixpoint memcmp (buf : list ascii) (p : cptr) (n : nat) : Z :=
  match n with
  | O => 0
  | S n' =>
      if decide (byte_at buf 0 = byte_at p 0)
      then memcmp (tail buf) (tail p) n'
      else Z.of_nat (nat_of_ascii (byte_at buf 0))
           - Z.of_nat (nat_of_ascii (byte_at p 0))
  end.

(** The object [strndup] returns for the bytes [s], laid out in front of
    whatever follows it in the heap.  C leaves a read past the terminator
    undefined; here such a read yields the cell of [after] it falls on, so
    that a result which depends on [after] is a result the string alone does
    not determine. *)
Definition cstr (s after : list ascii) : cptr := s ++ NUL :: after.

(** C's [a || b] on [int]s. *)
Definition c_or (a b : Z) : Z := if decide (a = 0) then (if decide (b = 0) then 0 else 1) else 1.
Definition c_bool (b : bool) : Z := if b then 1 else 0.

(** ** The transport handle *)

Inductive write_callback := dummy_write_cb.
Inductive header_callback := header_write_cb.
(** The only header sink the code installs is the address of the local
    [etag] of the validator. *)
Inductive header_sink := etag_slot.

Record CURL := mkCURL {
  opt_url : string;                               (* CURLOPT_URL *)
  opt_writefunction : option write_callback;      (* CURLOPT_WRITEFUNCTION *)
  opt_headerfunction : option header_callback;    (* CURLOPT_HEADERFUNCTION *)
  opt_writeheader : option header_sink;           (* CURLOPT_WRITEHEADER *)
  opt_header : bool;                              (* CURLOPT_HEADER *)
  opt_nobody : bool;                              (* CURLOPT_NOBODY *)
  opt_resume_from : Z;                            (* CURLOPT_RESUME_FROM *)
  opt_writedata : option string;                  (* CURLOPT_WRITEDATA, the file by path *)
}.

Definition set_url (v : string) (h : CURL) : CURL :=
  mkCURL v (opt_writefunction h) (opt_headerfunction h) (opt_writeheader h)
         (opt_header h) (opt_nobody h) (opt_resume_from h) (opt_writedata h).
Definition set_writefunction (v : option write_callback) (h : CURL) : CURL :=
  mkCURL (opt_url h) v (opt_headerfunction h) (opt_writeheader h)
         (opt_header h) (opt_nobody h) (opt_resume_from h) (opt_writedata h).
Definition set_headerfunction (v : option header_callback) (h : CURL) : CURL :=
  mkCURL (opt_url h) (opt_writefunction h) v (opt_writeheader h)
         (opt_header h) (opt_nobody h) (opt_resume_from h) (opt_writedata h).
Definition set_writeheader (v : option header_sink) (h : CURL) : CURL :=
  mkCURL (opt_url h) (opt_writefunction h) (opt_headerfunction h) v
         (opt_header h) (opt_nobody h) (opt_resume_from h) (opt_writedata h).
Definition set_header (v : bool) (h : CURL) : CURL :=
  mkCURL (opt_url h) (opt_writefunction h) (opt_headerfunction h) (opt_writeheader h)
         v (opt_nobody h) (opt_resume_from h) (opt_writedata h).
Definition set_nobody (v : bool) (h : CURL) : CURL :=
  mkCURL (opt_url h) (opt_writefunction h) (opt_headerfunction h) (opt_writeheader h)
         (opt_header h) v (opt_resume_from h) (opt_writedata h).
Definition set_resume_from (v : Z) (h : CURL) : CURL :=
  mkCURL (opt_url h) (opt_writefunction h) (opt_headerfunction h) (opt_writeheader h)
         (opt_header h) (opt_nobody h) v (opt_writedata h).
Definition set_writedata (v : option string) (h : CURL) : CURL :=
  mkCURL (opt_url h) (opt_writefunction h) (opt_headerfunction h) (opt_writeheader h)
         (opt_header h) (opt_nobody h) (opt_resume_from h) v.

(** What one request yields. *)
Record response := mkResponse {
  r_code : Z;                      (* the CURLcode, 0 is CURLE_OK *)
  r_headers : list (list ascii);   (* the header lines, as handed to the header callback *)
  r_length : Z;                    (* CURLINFO_CONTENT_LENGTH_DOWNLOAD, -1 when not known *)
  r_detail : string;               (* what libcurl leaves in the error buffer *)
  r_body : list ascii;             (* the body bytes delivered *)
}.

(** ** The environment and the state *)

Record env := mkEnv {
  e_server : CURL → response;        (* libcurl and the remote side *)
  e_strerror : Z → string;           (* curl_easy_strerror *)
  e_wr_denied : gset string;         (* paths fopen cannot open for writing *)
  e_rd_denied : gset string;         (* paths fopen cannot open for reading *)
  e_rd_fault : gmap string nat;      (* offset at which reading a file hits a device error *)
  e_unlink_denied : gset string;     (* paths unlink cannot remove *)
  e_heap_after : nat → list ascii;   (* the heap cells that follow the etag strndup'ed
                                        during the n-th request *)
  e_curl_easy_init : bool;           (* whether curl_easy_init can hand out a handle *)
}.

Inductive event :=
| EvPerform (h : CURL)                               (* curl_easy_perform *)
| EvFopen (path mode : string) (ok : bool)
| EvFwrite (path : string) (data : list ascii)
| EvUnlink (path : string)
| EvMsg (line : string).                             (* opkg_msg(ERROR, ...) *)

Record world := mkWorld {
  w_files : gmap string (list ascii);
  w_curl : CURL;                     (* static CURL *curl *)
  w_errbuf : string;                 (* the C string held in curl_errorbuffer *)
  w_length : Z;                      (* what CURLINFO_CONTENT_LENGTH_DOWNLOAD reports *)
  w_trace : list event;              (* what has been done so far, oldest first *)
}.

Definition with_files (f : gmap string (list ascii)) (w : world) : world :=
  mkWorld f (w_curl w) (w_errbuf w) (w_length w) (w_trace w).
Definition with_curl (h : CURL) (w : world) : world :=
  mkWorld (w_files w) h (w_errbuf w) (w_length w) (w_trace w).
Definition with_errbuf (b : string) (w : world) : world :=
  mkWorld (w_files w) (w_curl w) b (w_length w) (w_trace w).
Definition with_length (n : Z) (w : world) : world :=
  mkWorld (w_files w) (w_curl w) (w_errbuf w) n (w_trace w).
Definition emit (ev : event) (w : world) : world :=
  mkWorld (w_files w) (w_curl w) (w_errbuf w) (w_length w) (w_trace w ++ [ev]).

(** The requests made so far. *)
Definition requests (tr : list event) : list CURL :=
  omap (λ ev, match ev with EvPerform h => Some h | _ => None end) tr.

(** [curl_easy_setopt(curl, ...)] on the static handle. *)
Definition setopt (f : CURL → CURL) (w : world) : world := with_curl (f (w_curl w)) w.

(** Modelled from the spec: the [opkg_msg] macro of opkg_message.h is not
    among the sources at hand; [opkg_msg(ERROR, ...)] logs one line, given
    here as the formatted text. *)
Definition opkg_msg (line : string) (w : world) : world := emit (EvMsg line) w.

(** ** The C library calls the code makes *)

(** Modelled from the spec: [file_exists] of file_util.c is not part of the
    sources at hand; it answers whether something is present at the path. *)
Definition file_exists (w : world) (path : string) : bool :=
  bool_decide (is_Some (w_files w !! path)).

(** Modelled from the spec: [sprintf_alloc(&file_path, "%s.@stamp", file_name)]
    of sprintf_alloc.c, the derived path of the stamp file. *)
Definition stamp_path (file_name : string) : string := file_name +:+ ".@stamp".

(** [unlink(path)]: removes the file unless the file system refuses; the
    result is never looked at by the code, so a refusal leaves no mark but
    the file itself. *)
Definition unlink (e : env) (path : string) (w : world) : world :=
  emit (EvUnlink path)
    (if decide (path ∈ e_unlink_denied e) then w
     else with_files (delete path (w_files w)) w).

(** [fopen(path, "wb")]: truncates or creates. *)
Definition fopen_wb (e : env) (path : string) (w : world) : bool * world :=
  if decide (path ∈ e_wr_denied e)
  then (false, emit (EvFopen path "wb" false) w)
  else (true, emit (EvFopen path "wb" true) (with_files (<[path := []]> (w_files w)) w)).

(** [fopen(path, "ab")]: keeps what is there, or creates. *)
Definition fopen_ab (e : env) (path : string) (w : world) : bool * world :=
  if decide (path ∈ e_wr_denied e)
  then (false, emit (EvFopen path "ab" false) w)
  else (true, emit (EvFopen path "ab" true)
                (with_files (<[path := default [] (w_files w !! path)]> (w_files w)) w)).

(** Writing through a stream opened on [path]. *)
Definition fwrite (path : string) (data : list ascii) (w : world) : world :=
  emit (EvFwrite path data)
    (with_files (<[path := default [] (w_files w !! path) ++ data]> (w_files w)) w).

(** [fseek(file, 0, SEEK_END); ftell(file)] *)
Definition file_length (w : world) (path : string) : Z :=
  Z.of_nat (length (default [] (w_files w !! path))).

(** A stream opened for reading: what is still unread, how many of those
    bytes can be delivered before the device fails, the error indicator. *)
Record FILE := mkFILE {
  f_rest : list ascii;
  f_fault : option nat;
  f_error : bool;
}.

Definition fopen_rb (e : env) (path : string) (w : world) : option FILE * world :=
  if decide (path ∈ e_rd_denied e)
  then (None, emit (EvFopen path "rb" false) w)
  else match w_files w !! path with
       | Some content =>
           (Some (mkFILE content (e_rd_fault e !! path) false),
            emit (EvFopen path "rb" true) w)
       | None => (None, emit (EvFopen path "rb" false) w)
       end.

(** [fread(buf, 1, n, file)]: the bytes read, and the stream afterwards. *)
Definition fread (n : nat) (f : FILE) : list ascii * FILE :=
  match f_fault f with
  | None => (take n (f_rest f), mkFILE (drop n (f_rest f)) None (f_error f))
  | Some k =>
      let got := take (n `min` k) (f_rest f) in
      (got,
       mkFILE (drop (n `min` k) (f_rest f)) (Some (k - n `min` k)%nat)
              (f_error f || bool_decide (k < n ∧ k < length (f_rest f))%nat))
  end.

(** ** The stamp store *)

Definition STAMP_BUF_SIZE : nat := 10.

(** create_file_stamp: 0 on success, -1 when the stamp file cannot be
    opened. *)
Definition create_file_stamp (e : env) (file_name : string) (stamp : cptr)
    (w : world) : Z * world :=
  let file_path := stamp_path file_name in
  match fopen_wb e file_path w with
  | (false, w) => (-1, opkg_msg ("Failed to open file " +:+ file_path +:+ nl) w)
  | (true, w) => (0, fwrite file_path (take (strlen stamp) stamp) w)
  end.

(** The value assigned to [diff] in the loop body, from the block read and
    the stamp pointer. *)
Definition block_diff (stamp_buf : list ascii) (stamp : cptr) : Z :=
  let size := Z.of_nat (length stamp_buf) in
  c_or (c_or
          (c_bool ((size <? Z.of_nat STAMP_BUF_SIZE)
                   && negb (size =? to_int (Z.of_nat (strlen stamp)))))
          (c_bool ((size =? Z.of_nat STAMP_BUF_SIZE)
                   && (Z.of_nat (strlen stamp) <? Z.of_nat STAMP_BUF_SIZE))))
       (memcmp stamp_buf stamp (length stamp_buf)).

(** The [while] loop over the stamp; the result is the final [diff].  [diff] is 0
    whenever the loop condition is tested, since a non-zero [diff] leaves the
    loop by [break].  [None] stands for fuel that ran out. *)
Fixpoint stamp_loop (fuel : nat) (file : FILE) (stamp : cptr) : option Z :=
  match fuel with
  | O => None
  | S fuel' =>
      if decide (deref stamp = NUL) then Some 0
      else
        let '(stamp_buf, file') := fread STAMP_BUF_SIZE file in
        if decide (length stamp_buf = 0%nat ∧ f_error file' = true) then Some (-1)
        else
          let diff := block_diff stamp_buf stamp in
          if decide (diff = 0)
          then stamp_loop fuel' file' (ptr_add stamp STAMP_BUF_SIZE)
          else Some diff
  end.

(** check_file_stamp: 0 when the comparison finds no difference.  The read
    failure branch is the only one that leaves [diff] at -1, and it logs.
    The loop is given fuel that it cannot use up ([stamp_loop_total] below),
    and [fclose] is taken to succeed. *)
Definition check_file_stamp (e : env) (file_name : string) (stamp : cptr)
    (w : world) : Z * world :=
  let file_path := stamp_path file_name in
  if negb (file_exists w file_path) then (-1, w)
  else
    match fopen_rb e file_path w with
    | (None, w) => (-1, opkg_msg ("Failed to open file " +:+ file_path +:+ nl) w)
    | (Some file, w) =>
        let diff := default 0 (stamp_loop (S (length stamp)) file stamp) in
        (diff,
         if decide (diff = -1)
         then opkg_msg ("Failed to read from file " +:+ file_path +:+ nl) w
         else w)
    end.

(** ** The header callback *)

Definition tolower (c : ascii) : ascii :=
  let n := nat_of_ascii c in
  if (65 <=? n)%nat && (n <=? 90)%nat then ascii_of_nat (n + 32) else c.

(** [strchr(p, c)] and [strrchr(p, c)] for a [c] other than [NUL]: the
    offset of the first, of the last occurrence in the C string at [p]. *)
Fixpoint strchr (p : cptr) (c : ascii) : option nat :=
  match p with
  | [] => None
  | x :: q =>
      if decide (x = c) then Some 0%nat
      else if decide (x = NUL) then None
      else S <$> strchr q c
  end.

Fixpoint strrchr (p : cptr) (c : ascii) : option nat :=
  match p with
  | [] => None
  | x :: q =>
      if decide (x = NUL) then None
      else match strrchr q c with
           | Some i => Some (S i)
           | None => if decide (x = c) then Some 0%nat else None
           end
  end.

Definition strndup (p : cptr) (n : nat) : list ascii := take (n `min` strlen p) p.

(** Modelled from the spec: [str_starts_with] of the string utilities is not
    among the sources at hand; it tells whether [str] begins with [prefix]. *)
Definition str_starts_with (str prefix : list ascii) : bool :=
  bool_decide (take (length prefix) str = prefix).

(** header_write: [ptr] is one header line, [out] what the sink holds; the
    result is what the sink holds afterwards.  The array [prefix] receives
    the lowered first bytes of the line, five of them unless the line is
    shorter, in which case it does not spell the field name. *)
Definition header_write (ptr : list ascii) (out : option (list ascii))
    : option (list ascii) :=
  let prefix := tolower <$> take 5 ptr in
  if str_starts_with prefix (chars "etag:") then
    match strchr ptr DQUOTE, strrchr ptr DQUOTE with
    | Some i, Some j =>
        let start := S i in
        if decide (start < j)%nat
        then Some (strndup (ptr_add ptr start) (j - start))
        else out
    | _, _ => out
    end
  else out.

(** ** Requests *)

(** [curl_easy_perform(handle)] with the static handle: the header lines go
    to the header callback when one is installed with its sink, the body (if
    one is asked for) to the stream bound with CURLOPT_WRITEDATA unless a
    write callback swallows it, and a failure leaves its detail in the error
    buffer.  [etag] is the content of the validator's header sink. *)
Definition curl_easy_perform (e : env) (etag : option (list ascii)) (w : world)
    : Z * option (list ascii) * world :=
  let h := w_curl w in
  let r := e_server e h in
  let w := emit (EvPerform h) w in
  let etag :=
    match opt_headerfunction h, opt_writeheader h with
    | Some header_write_cb, Some etag_slot =>
        foldl (λ out line, header_write line out) etag (r_headers r)
    | _, _ => etag
    end in
  let w :=
    if opt_nobody h then w
    else match opt_writefunction h, opt_writedata h with
         | None, Some path => fwrite path (r_body r) w
         | _, _ => w
         end in
  let w := with_length (r_length r) w in
  let w := if decide (r_code r = 0) then w else with_errbuf (r_detail r) w in
  (r_code r, etag, w).

(** perform_curl_request: empties the error buffer first. *)
Definition perform_curl_request (e : env) (etag : option (list ascii)) (w : world)
    : Z * option (list ascii) * world :=
  curl_easy_perform e etag (with_errbuf "" w).

(** ** Reporting a failed download *)

(** The text log_curl_download_error hands to [opkg_msg], from the content
    of the error buffer, the generic description and the two leading
    arguments. *)
Definition download_error_text (errbuf generic msg src_url : string) : string :=
  let curl_err_len := String.length errbuf in
  let curl_err_msg := if decide (curl_err_len = 0%nat) then generic else errbuf in
  let has_trailing_newline :=
    negb (bool_decide (curl_err_len = 0%nat))
    && bool_decide (String.get (curl_err_len - 1) curl_err_msg = Some LF) in
  msg +:+ " " +:+ src_url +:+ ": " +:+ curl_err_msg
      +:+ (if has_trailing_newline then "" else nl).

Definition log_curl_download_error (e : env) (msg src_url : string) (res : Z)
    (w : world) : world :=
  opkg_msg (download_error_text (w_errbuf w) (e_strerror e res) msg src_url) w.

(** ** The cache validator *)

(** The statements after the [cleanup] label. *)
Definition cleanup (ret : Z) (w : world) : Z * world :=
  let w := setopt (set_writefunction None) w in
  let w := setopt (set_headerfunction None) w in
  let w := setopt (set_writeheader None) w in
  let w := setopt (set_header false) w in
  let w := setopt (set_nobody false) w in
  (ret, w).

(** The memory at [etag] when the header callback has stored the bytes [t]
    there: the copy [strndup] made during the last request, its terminator,
    and the heap cells that happen to follow that allocation. *)
Definition etag_buffer (e : env) (w : world) (t : list ascii) : cptr :=
  cstr t (e_heap_after e (length (requests (w_trace w)))).

(** The freshness decision of the validator: [match], and the state after
    the unlink of a stale file. *)
Definition check_cache (e : env) (cache_location : string)
    (etag : option (list ascii)) (w : world) : bool * world :=
  if file_exists w cache_location then
    match etag with
    | Some t =>
        match check_file_stamp e cache_location (etag_buffer e w t) w with
        | (diff, w) =>
            if decide (diff = 0) then (true, w) else (false, unlink e cache_location w)
        end
    | None => (false, unlink e cache_location w)
    end
  else (false, w).

(** The stamp is written when the cache did not match and there is an etag. *)
Definition refresh_stamp (e : env) (cache_location : string)
    (etag : option (list ascii)) (match_ : bool) (w : world) : world :=
  match etag with
  | Some t =>
      if match_ then w
      else
        match create_file_stamp e cache_location (etag_buffer e w t) w with
        | (r, w) =>
            if decide (r = 0) then w
            else opkg_msg ("Failed to create stamp for " +:+ cache_location +:+ "." +:+ nl) w
        end
  | None => w
  end.

(** opkg_validate_cached_file: 0 if the file is in the cache and complete,
    1 if it needs further downloading, -1 on error.  The remote size is a
    [double] in the C code, which holds every file length exactly; it is an
    integer here. *)
Definition opkg_validate_cached_file (e : env) (src cache_location : string)
    (w : world) : Z * world :=
  let w := setopt (set_writefunction (Some dummy_write_cb)) w in
  let w := setopt (set_headerfunction (Some header_write_cb)) w in
  let w := setopt (set_writeheader (Some etag_slot)) w in
  let w := setopt (set_header true) w in
  let w := setopt (set_nobody true) w in
  match perform_curl_request e None w with
  | (res, etag, w) =>
      if decide (res = 0) then
        let src_size := w_length w in
        match check_cache e cache_location etag w with
        | (match_, w) =>
            let w := refresh_stamp e cache_location etag match_ w in
            match fopen_ab e cache_location w with
            | (false, w) =>
                cleanup (-1)
                  (opkg_msg ("Failed to open cache file " +:+ cache_location +:+ nl) w)
            | (true, w) =>
                let resume_from := file_length w cache_location in
                if decide (resume_from < src_size)
                then cleanup 1 (setopt (set_resume_from resume_from) w)
                else cleanup 0 w
            end
        end
      else
        cleanup (-1)
          (log_curl_download_error e "Failed to download headers of" src res w)
  end.

(** ** The download entry point *)

(** The body transfer at the end of opkg_download_backend. *)
Definition transfer (e : env) (src dest : string) (w : world) : Z * world :=
  match fopen_ab e dest w with
  | (false, w) =>
      (-1, opkg_msg ("Failed to open destination file " +:+ dest +:+ nl) w)
  | (true, w) =>
      let w := setopt (set_writedata (Some dest)) w in
      match perform_curl_request e None w with
      | (res, _, w) =>
          if decide (res = 0) then (0, w)
          else (-1, log_curl_download_error e "Failed to download" src res w)
      end
  end.

(** opkg_download_backend, from the point where opkg_curl_init has handed
    out the static handle (a build without HAVE_SSLCURL; the options set by
    opkg_curl_init are none of those of [CURL]). *)
Definition opkg_download_backend (e : env) (src dest : string) (use_cache : bool)
    (w : world) : Z * world :=
  let w := setopt (set_url src) w in
  if use_cache then
    match opkg_validate_cached_file e src dest w with
    | (ret, w) => if decide (ret ≤ 0) then (ret, w) else transfer e src dest w
    end
  else transfer e src dest (unlink e dest w).

(** The whole of opkg_download_backend, with the call of opkg_curl_init in
    front (a build without HAVE_SSLCURL).  [have] tells whether the static
    [curl] holds a handle when the function is entered; if it does not,
    [curl_easy_init] is asked for one, and what it hands out has none of the
    options of [CURL] set.  Without a handle opkg_curl_init returns a null
    pointer and the function returns -1 at once. *)
Module Entry.

Definition curl_easy_init (e : env) : option CURL :=
  if e_curl_easy_init e then Some (mkCURL "" None None None false false 0 None)
  else None.

Definition opkg_curl_init (e : env) (have : bool) (w : world) : option world :=
  if have then Some w
  else (λ h, with_curl h w) <$> curl_easy_init e.

Definition opkg_download_backend (e : env) (src dest : string) (use_cache : bool)
    (have : bool) (w : world) : Z * world :=
  match opkg_curl_init e have w with
  | None => (-1, w)
  | Some w => opkg_download_backend e src dest use_cache w
  end.

End Entry.

(** ** Replacing a token in a string (builds with HAVE_SSLCURL) *)

(** Arithmetic on [size_t], taken to have 64 bits, and the conversion to
    [unsigned int], 32 bits. *)
Definition size_sub (a b : Z) : Z := (a - b) mod 2 ^ 64.
Definition size_add (a b : Z) : Z := (a + b) mod 2 ^ 64.
Definition to_uint (z : Z) : Z := z mod 2 ^ 32.

(** [strstr(str, token)] on the bytes of two C strings: the offset of the
    first occurrence of [token]. *)
Fixpoint strstr (str token : list ascii) : option nat :=
  if decide (token `prefix_of` str) then Some 0%nat
  else match str with
       | [] => None
       | _ :: rest => S <$> strstr rest token
       end.

(** [xmalloc(n)]: [n] cells holding whatever the heap held, [junk]. *)
Definition xmalloc (n : Z) (junk : list ascii) : list ascii :=
  resize (Z.to_nat n) NUL junk.

(** [memmove(buf + off, src, n)], for a range inside [buf] and [n] bytes
    available at [src]. *)
Definition memmove_at (buf : list ascii) (off : Z) (src : list ascii) (n : Z)
    : list ascii :=
  take (Z.to_nat off) buf ++ take (Z.to_nat n) src
    ++ drop (Z.to_nat off + Z.to_nat n) buf.

(** The C string a buffer holds: its bytes before the first [NUL]. *)
Definition c_string (buf : cptr) : list ascii := take (strlen buf) buf.

(** replace_token_in_str: [str] and [replacement] are given by their bytes,
    [token] is [None] for a null pointer; the result is the string the
    function returns. *)
Definition replace_token_in_str (str : list ascii) (token : option (list ascii))
    (replacement : list ascii) (junk : list ascii) : list ascii :=
  match token with
  | None => str
  | Some token =>
      if decide (token = []) then str
      else
        match strstr str token with
        | None => str
        | Some found_token =>
            let replacement_len := Z.of_nat (length replacement) in
            let str_len := Z.of_nat (length str) in
            let token_len := Z.of_nat (length token) in
            let replaced_str_len :=
              size_sub str_len (size_sub token_len replacement_len) in
            let token_idx := to_uint (Z.of_nat found_token) in
            let replaced_str := xmalloc (size_add replaced_str_len 1) junk in
            let replaced_str := memmove_at replaced_str 0 str token_idx in
            let replaced_str :=
              memmove_at replaced_str token_idx replacement replacement_len in
            let replaced_str :=
              memmove_at replaced_str (token_idx + replacement_len)
                (drop (Z.to_nat (token_idx + token_len)) str)
                (size_sub (size_sub replaced_str_len token_idx) replacement_len) in
            let replaced_str := <[Z.to_nat replaced_str_len := NUL]> replaced_str in
            c_string replaced_str
        end
  end.

(** ** Definitions the statements use *)

(** What the comparison loop computes on a stream that reads without
    failure: for a candidate whose length is a multiple of the block size it
    accepts every file the candidate is a prefix of; for any other candidate
    it accepts the file that equals the candidate, provided the cell the
    pointer lands on after the last block holds [NUL]. *)
Definition stamp_outcome (content s after : list ascii) : Z :=
  if decide (length s `mod` STAMP_BUF_SIZE = 0)%nat
  then (if decide (s `prefix_of` content) then 0 else 1)
  else if decide (content = s
                  ∧ byte_at after (STAMP_BUF_SIZE - 1 - length s `mod` STAMP_BUF_SIZE) = NUL)
       then 0 else 1.

(** The file at [path] can be opened for reading and read to its end. *)
Definition reads_well (e : env) (path : string) : Prop :=
  (path ∉ e_rd_denied e) ∧ (e_rd_fault e !! path = None).

(** The configuration of the metadata-only request, and the configuration
    the statements after [cleanup] leave. *)
Definition metadata_request (h : CURL) : CURL :=
  set_nobody true (set_header true (set_writeheader (Some etag_slot)
    (set_headerfunction (Some header_write_cb)
       (set_writefunction (Some dummy_write_cb) h)))).

Definition body_transfer (h : CURL) : CURL :=
  set_nobody false (set_header false (set_writeheader None
    (set_headerfunction None (set_writefunction None h)))).

(** What the remote side answers to the metadata-only request. *)
Definition metadata (e : env) (w : world) : response :=
  e_server e (metadata_request (w_curl w)).

(** The identity marker the header callback extracts from a response. *)
Definition etag_of (r : response) : option (list ascii) :=
  foldl (λ out line, header_write line out) None (r_headers r).

(** The state once the metadata-only request has returned. *)
Definition after_metadata (e : env) (w : world) : world :=
  let r := metadata e w in
  mkWorld (w_files w) (metadata_request (w_curl w))
          (if decide (r_code r = 0) then "" else r_detail r)
          (r_length r)
          (w_trace w ++ [EvPerform (metadata_request (w_curl w))]).

(** The requests in a trace that ask for a body. *)
Definition body_requests (tr : list event) : list CURL :=
  omap (λ ev, match ev with
              | EvPerform h => if opt_nobody h then None else Some h
              | _ => None
              end) tr.

(** The file operations leave the handle, the error buffer and the size
    reported by the last request alone, and make no request. *)
Definition same_transport (w w' : world) : Prop :=
  w_curl w' = w_curl w ∧ w_errbuf w' = w_errbuf w ∧ w_length w' = w_length w
  ∧ body_requests (w_trace w') = body_requests (w_trace w).

(** The state in which the validator reopens the cache file: after the
    freshness decision and the stamp refresh. *)
Definition before_reopen (e : env) (cache_location : string) (w : world) : world :=
  let r := metadata e w in
  let c := check_cache e cache_location (etag_of r) (after_metadata e w) in
  refresh_stamp e cache_location (etag_of r) c.1 c.2.

(** The length the validator measures, [resume_from]. *)
Definition measured_length (e : env) (cache_location : string) (w : world) : Z :=
  file_length (before_reopen e cache_location w) cache_location.

(** The persisted stamp of [file_name] is stale for the marker [t]: there is
    no stamp file, or the marker is not a prefix of its content, or (when
    the stamp file reads without failure) the content differs from a marker
    whose length is no multiple of the block size. *)
Definition stale_stamp (e : env) (file_name : string) (t : list ascii) (w : world)
    : Prop :=
  match w_files w !! stamp_path file_name with
  | None => True
  | Some content =>
      ¬ t `prefix_of` content
      ∨ (reads_well e (stamp_path file_name) ∧ content ≠ t
         ∧ (length t `mod` STAMP_BUF_SIZE)%nat ≠ 0%nat)
  end.

(** The environment in which [path] can be opened for writing and all else
    is as in [e]. *)
Definition allow_write (path : string) (e : env) : env :=
  mkEnv (e_server e) (e_strerror e) (e_wr_denied e ∖ {[path]})
        (e_rd_denied e) (e_rd_fault e) (e_unlink_denied e) (e_heap_after e)
        (e_curl_easy_init e).

(** The number of newlines a string ends with. *)
Fixpoint trailing_newlines (s : string) : nat :=
  match s with
  | EmptyString => 0
  | String c s' =>
      let n := trailing_newlines s' in
      if decide (n = String.length s' ∧ c = LF) then S n else n
  end.

Definition CR : ascii := ascii_of_nat 13.

(** A header line carrying the marker [tag]. *)
Definition etag_line (tag : string) : list ascii :=
  chars "ETag: " ++ DQUOTE :: chars tag ++ [DQUOTE; CR; LF].

(** A remote side that answers every request alike, and a file system
    without failures. *)
Definition plain_env (r : response) (after : list ascii) : env :=
  mkEnv (λ _, r) (λ _, "Timeout was reached") ∅ ∅ ∅ ∅ (λ _, after) true.

Definition ok_response (tag : option string) (size : Z) : response :=
  mkResponse 0
    ((chars "HTTP/1.1 200 OK" ++ [CR; LF])
       :: match tag with Some t => [etag_line t] | None => [] end)
    size "" [].

Definition idle_handle : CURL := mkCURL "" None None None false false 0 None.

Definition start (files : gmap string (list ascii)) : world :=
  mkWorld files idle_handle "" (-1) [].

(** A cache file of five bytes whose stamp is "abc". *)
Definition cached : world :=
  start {[ "f" := chars "hello"; "f.@stamp" := chars "abc" ]}.

(** The environment in which the stamp file of "f" cannot be written. *)
Definition stamp_locked_env (r : response) : env :=
  mkEnv (λ _, r) (λ _, "Timeout was reached") {[ "f.@stamp" ]} ∅ ∅ ∅ (λ _, []) true.

(** An environment in which the heap cells behind the marker are [NUL] for
    the first request and hold another byte, six places behind the
    terminator, for every later one. *)
Definition moving_heap_env (r : response) : env :=
  mkEnv (λ _, r) (λ _, "Timeout was reached") ∅ ∅ ∅ ∅
        (λ n, if decide (n = 1%nat) then replicate 7 NUL
              else replicate 6 NUL ++ chars "A")
        true.

(** The environment in which "f" cannot be removed. *)
Definition unlink_locked_env (r : response) : env :=
  mkEnv (λ _, r) (λ _, "Timeout was reached") ∅ ∅ ∅ {[ "f" ]} (λ _, []) true.

Definition failed_response : response :=
  mkResponse 22 [] (-1) "The requested URL returned error: 404" [].

(** A stamp file of thirteen bytes. *)
Definition stamped : world := start {[ "f.@stamp" := chars "0123456789abc" ]}.

(** The environment in which reading the stamp file of "f" fails after ten
    bytes. *)
Definition faulty_env : env :=
  mkEnv (λ _, ok_response None 0) (λ _, "Timeout was reached") ∅ ∅
        {[ "f.@stamp" := 10%nat ]} ∅ (λ _, []) true.

(** A remote side that answers every request with the marker "abc", the size
    1000 and the body [body]. *)
Definition serving_env (body : string) : env :=
  mkEnv (λ _, mkResponse 0 [etag_line "abc"] 1000 "" (chars body))
        (λ _, "Timeout was reached") ∅ ∅ ∅ ∅ (λ _, []) true.

(** * Properties *)

(** ** Facts about the C string primitives *)

Lemma to_int_small z : 0 ≤ z < 2 ^ 31 → to_int z = z.
Proof.
  intros Hz. unfold to_int.
  change (2 ^ 31) with 2147483648 in *. change (2 ^ 32) with 4294967296.
  rewrite Z.mod_small; lia.
Qed.

Lemma strlen_cstr s after : NUL ∉ s → strlen (cstr s after) = length s.
Proof.
  unfold cstr. induction s as [|a s IH]; intros Hs; simpl.
  - done.
  - apply not_elem_of_cons in Hs as [Ha Hs].
    destruct (decide (a = NUL)) as [?|_]; [congruence|]. by rewrite IH.
Qed.

Lemma strlen_le p : (strlen p ≤ length p)%nat.
Proof. induction p as [|c p IH]; simpl; [lia|]. case_decide; lia. Qed.

Lemma strlen_pos p : deref p ≠ NUL → (0 < strlen p)%nat.
Proof. destruct p as [|c p]; simpl; [done|]. intros Hc. destruct (decide (c = NUL)); [done|lia]. Qed.

Lemma deref_cstr_cons a s after : deref (cstr (a :: s) after) = a.
Proof. done. Qed.

Lemma deref_drop p n : deref (ptr_add p n) = byte_at p n.
Proof.
  unfold deref, ptr_add, byte_at. revert n.
  induction p as [|c p IH]; intros [|n]; simpl; try done.
Qed.

Lemma nat_of_ascii_diff a b :
  a ≠ b → Z.of_nat (nat_of_ascii a) - Z.of_nat (nat_of_ascii b) ≠ 0.
Proof.
  intros Hab Heq. apply Hab.
  rewrite <- (ascii_nat_embedding a), <- (ascii_nat_embedding b).
  f_equal. lia.
Qed.

Lemma memcmp_zero n : ∀ buf p,
  length buf = n → (n ≤ length p)%nat → memcmp buf p n = 0 ↔ buf = take n p.
Proof.
  induction n as [|n IH]; intros buf p Hb Hp.
  - destruct buf; [|done]. by rewrite take_0.
  - destruct buf as [|b buf]; [done|]. destruct p as [|x p]; [simpl in Hp; lia|].
    simpl in *. unfold byte_at; simpl. case_decide as Hbx.
    + subst x. rewrite IH by lia. split; [by intros ->|by intros [= ->]].
    + split; [|by intros [= ? ?]].
      intros H0. by apply nat_of_ascii_diff in Hbx.
Qed.

Lemma take_cstr n s after : (n ≤ length s)%nat → take n (cstr s after) = take n s.
Proof. intros. unfold cstr. by rewrite take_app_le. Qed.

Lemma ptr_add_cstr n s after :
  (n ≤ length s)%nat → ptr_add (cstr s after) n = cstr (drop n s) after.
Proof. intros. unfold ptr_add, cstr. by rewrite drop_app_le. Qed.

Lemma ptr_add_cstr_past n s after :
  (length s < n)%nat → ptr_add (cstr s after) n = ptr_add after (n - S (length s)).
Proof.
  intros. unfold ptr_add, cstr. rewrite drop_app_ge by lia.
  replace (n - length s)%nat with (S (n - S (length s))) by lia. done.
Qed.

Lemma fread_nofault n c b :
  fread n (mkFILE c None b) = (take n c, mkFILE (drop n c) None b).
Proof. done. Qed.

Lemma c_or_range a b : c_or a b = 0 ∨ c_or a b = 1.
Proof. unfold c_or. repeat case_decide; auto. Qed.

Lemma c_or_zero a b : c_or a b = 0 ↔ a = 0 ∧ b = 0.
Proof. unfold c_or. destruct (decide (a = 0)), (decide (b = 0)); intuition lia. Qed.

Lemma c_bool_zero b : c_bool b = 0 ↔ b = false.
Proof. by destruct b. Qed.

Lemma block_diff_range buf p : block_diff buf p = 0 ∨ block_diff buf p = 1.
Proof. apply c_or_range. Qed.

(** A block read from the file is accepted against the candidate [s] when
    it is the next block of [s] and, if it is short, all that is left of
    [s]. *)
Lemma block_diff_cstr buf s after :
  NUL ∉ s →
  Z.of_nat (length s) < 2 ^ 31 →
  (length buf ≤ STAMP_BUF_SIZE)%nat →
  block_diff buf (cstr s after) = 0
  ↔ buf = take STAMP_BUF_SIZE s
    ∧ ((length buf < STAMP_BUF_SIZE)%nat → length s = length buf).
Proof.
  intros Hnul Hlen Hbuf. unfold block_diff.
  rewrite !c_or_zero, !c_bool_zero, strlen_cstr by done.
  rewrite to_int_small by lia.
  rewrite !andb_false_iff, negb_false_iff, Z.ltb_ge, Z.eqb_eq, Z.eqb_neq, Z.ltb_ge.
  unfold STAMP_BUF_SIZE in *.
  split.
  - intros [[H1 H2] H3].
    assert (Hle : (length buf ≤ length s)%nat) by lia.
    apply memcmp_zero in H3; [|done|unfold cstr; rewrite length_app; lia].
    rewrite take_cstr in H3 by done.
    destruct (decide (length buf = 10%nat)) as [E|E].
    + split; [congruence|lia].
    + assert (length s = length buf) by lia.
      split; [|done]. rewrite H3. rewrite !take_ge; [done|lia|lia].
  - intros [-> H2]. rewrite length_take in *.
    split; [split; lia|].
    apply memcmp_zero; [by rewrite length_take|unfold cstr; rewrite length_app; lia|].
    rewrite take_cstr by lia.
    destruct (decide (10 ≤ length s)%nat).
    + by rewrite Nat.min_l.
    + rewrite Nat.min_r by lia. rewrite !take_ge; [done|lia|lia].
Qed.

Lemma stamp_loop_eof fuel p :
  Z.of_nat (length p) < 2 ^ 31 →
  stamp_loop (S fuel) (mkFILE [] None false) p
  = Some (if decide (deref p = NUL) then 0 else 1).
Proof.
  intros Hlen. cbn [stamp_loop]. case_decide as Hp; [done|].
  rewrite fread_nofault. cbn [f_error]. rewrite take_nil.
  rewrite (decide_False (P := _ ∧ _)) by (intros [_ ?]; done).
  assert (Hpos := strlen_pos p Hp). assert (Hle := strlen_le p).
  assert (Hd : block_diff [] p ≠ 0).
  { unfold block_diff. rewrite !c_or_zero, !c_bool_zero. intros [[H _] _].
    rewrite to_int_small in H by lia. cbn in H.
    apply andb_false_iff in H as [H|H]; [done|].
    apply negb_false_iff, Z.eqb_eq in H. lia. }
  rewrite decide_False by done.
  destruct (block_diff_range [] p) as [? | ->]; done.
Qed.

Lemma stamp_loop_nofault fuel : ∀ content s after,
  NUL ∉ s →
  Z.of_nat (length s + length after) < 2 ^ 31 →
  (length s < fuel)%nat →
  stamp_loop fuel (mkFILE content None false) (cstr s after)
  = Some (stamp_outcome content s after).
Proof.
  induction fuel as [|fuel IH]; intros content s after Hnul Hlen Hfuel; [lia|].
  destruct s as [|a s']; [done|].
  set (s := a :: s') in *.
  assert (Ha : a ≠ NUL) by (intros ->; apply Hnul; left).
  assert (Hs1 : (1 ≤ length s)%nat) by (simpl; lia).
  cbn [stamp_loop]. rewrite decide_False by done.
  rewrite fread_nofault. cbn [f_error].
  rewrite (decide_False (P := _ ∧ _)) by (intros [_ ?]; done).
  assert (Hspec := block_diff_cstr (take STAMP_BUF_SIZE content) s after Hnul).
  specialize (Hspec ltac:(lia)). rewrite length_take in Hspec.
  specialize (Hspec ltac:(lia)).
  destruct (block_diff_range (take STAMP_BUF_SIZE content) (cstr s after)) as [Hd|Hd];
    rewrite Hd.
  - (* the block is accepted *)
    rewrite decide_True by done. apply Hspec in Hd as [Htake Hshort].
    unfold STAMP_BUF_SIZE in *.
    destruct (decide (10 ≤ length content)%nat) as [Hc|Hc].
    + assert (Hs : (10 ≤ length s)%nat).
      { apply (f_equal length) in Htake. rewrite !length_take in Htake. lia. }
      rewrite ptr_add_cstr by lia.
      rewrite IH; cycle 1.
      { intros Hin. apply Hnul. rewrite <- (take_drop 10 s).
        apply elem_of_app. by right. }
      { rewrite length_drop. lia. }
      { rewrite length_drop. lia. }
      f_equal. unfold stamp_outcome, STAMP_BUF_SIZE.
      rewrite length_drop.
      assert (Hmod : ((length s - 10) `mod` 10 = length s `mod` 10)%nat).
      { replace (length s) with ((length s - 10) + 1 * 10)%nat at 2 by lia.
        by rewrite Nat.Div0.mod_add. }
      rewrite Hmod.
      assert (Hpre : drop 10 s `prefix_of` drop 10 content ↔ s `prefix_of` content).
      { rewrite <- (take_drop 10 s) at 2. rewrite <- (take_drop 10 content) at 2.
        rewrite Htake. split.
        - intros [k Hk]. exists k. by rewrite Hk, (assoc_L (++)).
        - intros [k Hk]. exists k. rewrite <- (assoc_L (++)) in Hk.
          by apply app_inv_head in Hk. }
      assert (Heq : drop 10 content = drop 10 s ↔ content = s).
      { split; [|by intros ->].
        intros Hd. by rewrite <- (take_drop 10 s), <- (take_drop 10 content), Htake, Hd. }
      repeat case_decide; try done; exfalso; tauto.
    + (* the file ended with this block, and so did the candidate *)
      rewrite take_ge in Htake by lia.
      specialize (Hshort ltac:(lia)).
      assert (content = s) as ->.
      { rewrite Htake, take_ge; [done|lia]. }
      rewrite drop_ge by lia.
      rewrite ptr_add_cstr_past by lia.
      destruct fuel as [|fuel]; [lia|].
      rewrite stamp_loop_eof; cycle 1.
      { unfold ptr_add. rewrite length_drop. lia. }
      f_equal. rewrite deref_drop.
      unfold stamp_outcome, STAMP_BUF_SIZE. rewrite Nat.mod_small by lia.
      rewrite (decide_False (P := length s = 0%nat)) by lia.
      replace (10 - 1 - length s)%nat with (10 - S (length s))%nat by lia.
      repeat case_decide; try done; exfalso; tauto.
  - (* the block is rejected *)
    rewrite decide_False by done. f_equal.
    assert (Hno : ¬ (take STAMP_BUF_SIZE content = take STAMP_BUF_SIZE s
                     ∧ ((STAMP_BUF_SIZE `min` length content < STAMP_BUF_SIZE)%nat
                        → length s = (STAMP_BUF_SIZE `min` length content)%nat))).
    { intros H. apply Hspec in H. rewrite H in Hd. done. }
    unfold stamp_outcome, STAMP_BUF_SIZE in *.
    assert (H1 : ¬ ((length s `mod` 10)%nat = 0%nat ∧ s `prefix_of` content)).
    { intros [Hmod [k ->]]. apply Hno.
      assert (10 ≤ length s)%nat.
      { destruct (decide (length s < 10)%nat); [|lia].
        rewrite Nat.mod_small in Hmod by lia. lia. }
      split; [by rewrite take_app_le by lia|].
      rewrite length_app. lia. }
    assert (H2 : content ≠ s).
    { intros ->. apply Hno. split; [done|lia]. }
    repeat case_decide; try done; exfalso; tauto.
Qed.

(** ** The stamp store on a file system that reads without failure *)

Lemma stamp_loop_total fuel : ∀ file p,
  (length p < fuel)%nat → is_Some (stamp_loop fuel file p).
Proof.
  induction fuel as [|fuel IH]; intros file p Hp; [lia|].
  cbn [stamp_loop]. case_decide as Hd; [by eexists|].
  destruct (fread STAMP_BUF_SIZE file) as [buf file'].
  case_decide; [by eexists|]. case_decide; [|by eexists].
  apply IH. destruct p as [|c p]; [done|].
  unfold ptr_add, STAMP_BUF_SIZE. rewrite length_drop. simpl in *. lia.
Qed.

Lemma stamp_loop_range fuel : ∀ file p z,
  stamp_loop fuel file p = Some z → z = -1 ∨ z = 0 ∨ z = 1.
Proof.
  induction fuel as [|fuel IH]; intros file p z; [done|].
  cbn [stamp_loop]. case_decide; [intros [= <-]; auto|].
  destruct (fread STAMP_BUF_SIZE file) as [buf file'].
  case_decide; [intros [= <-]; auto|].
  case_decide; [apply IH|].
  intros [= <-]. destruct (block_diff_range buf p) as [-> | ->]; auto.
Qed.

(** The verdict of check_file_stamp is a function of the stamp file and of
    the environment only. *)
Lemma check_file_stamp_absent e file_name stamp w :
  w_files w !! stamp_path file_name = None →
  check_file_stamp e file_name stamp w = (-1, w).
Proof.
  intros H. unfold check_file_stamp, file_exists. rewrite H.
  rewrite bool_decide_eq_false_2; [done|]. by intros [? ?].
Qed.

Lemma check_file_stamp_nofault e file_name s after content w :
  w_files w !! stamp_path file_name = Some content →
  reads_well e (stamp_path file_name) →
  NUL ∉ s →
  Z.of_nat (length s + length after) < 2 ^ 31 →
  check_file_stamp e file_name (cstr s after) w
  = (stamp_outcome content s after,
     emit (EvFopen (stamp_path file_name) "rb" true) w).
Proof.
  intros Hf [Hrd Hfault] Hnul Hlen. unfold check_file_stamp, file_exists, fopen_rb.
  rewrite Hf. rewrite bool_decide_eq_true_2 by by eexists. cbn [negb].
  rewrite decide_False by done. rewrite Hfault.
  rewrite stamp_loop_nofault; [|done|done|unfold cstr; rewrite length_app; simpl; lia].
  cbn [default]. rewrite decide_False; [done|].
  unfold stamp_outcome. repeat case_decide; done.
Qed.

Lemma check_file_stamp_range e file_name stamp w :
  let d := (check_file_stamp e file_name stamp w).1 in d = -1 ∨ d = 0 ∨ d = 1.
Proof.
  unfold check_file_stamp. destruct (file_exists _ _); cbn [negb]; [|auto].
  destruct (fopen_rb _ _ _) as [[file|] w']; cbv zeta; cbn [fst]; [|auto].
  destruct (stamp_loop_total (S (length stamp)) file stamp ltac:(lia)) as [z Hz].
  rewrite Hz. by apply stamp_loop_range in Hz.
Qed.

Lemma create_file_stamp_ok e file_name s after w :
  stamp_path file_name ∉ e_wr_denied e →
  NUL ∉ s →
  create_file_stamp e file_name (cstr s after) w
  = (0, emit (EvFwrite (stamp_path file_name) s)
          (emit (EvFopen (stamp_path file_name) "wb" true)
             (with_files (<[stamp_path file_name := s]> (w_files w)) w))).
Proof.
  intros Hw Hnul. unfold create_file_stamp, fopen_wb, fwrite.
  rewrite decide_False by done. rewrite strlen_cstr by done.
  unfold cstr. rewrite take_app_length. cbn.
  rewrite lookup_insert_eq. cbn. by rewrite insert_insert_eq.
Qed.

Lemma create_file_stamp_denied e file_name stamp w :
  stamp_path file_name ∈ e_wr_denied e →
  create_file_stamp e file_name stamp w
  = (-1, opkg_msg ("Failed to open file " +:+ stamp_path file_name +:+ nl)
           (emit (EvFopen (stamp_path file_name) "wb" false) w)).
Proof. intros Hw. unfold create_file_stamp, fopen_wb. by rewrite decide_True. Qed.

Lemma take_min_length (l : list ascii) n : take (n `min` length l) l = take n l.
Proof.
  destruct (decide (n ≤ length l)%nat); [by rewrite Nat.min_l|].
  rewrite Nat.min_r by lia. by rewrite !take_ge by lia.
Qed.

Lemma drop_min_length (l : list ascii) n : drop (n `min` length l) l = drop n l.
Proof.
  destruct (decide (n ≤ length l)%nat); [by rewrite Nat.min_l|].
  rewrite Nat.min_r by lia. by rewrite !drop_ge by lia.
Qed.

(** What [fread] delivers comes from the front of what is unread. *)
Lemma fread_delivers n f :
  let buf := (fread n f).1 in
  buf = take (length buf) (f_rest f)
  ∧ f_rest (fread n f).2 = drop (length buf) (f_rest f)
  ∧ (length buf ≤ n)%nat.
Proof.
  unfold fread. destruct (f_fault f) as [k|]; cbn [fst snd f_rest];
    rewrite length_take, take_min_length, drop_min_length; (split; [done|split; [done|lia]]).
Qed.

(** Whatever the stream does, a comparison that ends with 0 has seen the
    candidate at the front of the file. *)
Lemma stamp_loop_sound fuel : ∀ file s after,
  NUL ∉ s →
  Z.of_nat (length s) < 2 ^ 31 →
  stamp_loop fuel file (cstr s after) = Some 0 →
  s `prefix_of` f_rest file.
Proof.
  induction fuel as [|fuel IH]; intros file s after Hnul Hlen; [done|].
  destruct s as [|a s']; [intros _; apply prefix_nil|].
  set (s := a :: s') in *.
  assert (Ha : a ≠ NUL) by (intros ->; apply Hnul; left).
  cbn [stamp_loop]. rewrite decide_False by done.
  destruct (fread_delivers STAMP_BUF_SIZE file) as (Hbuf & Hrest & Hle).
  destruct (fread STAMP_BUF_SIZE file) as [buf file']. cbn [fst snd] in *.
  case_decide; [done|].
  case_decide as Hd; [|intros [= ?]; done].
  apply block_diff_cstr in Hd as [Htake Hshort]; [|done..].
  unfold STAMP_BUF_SIZE in *.
  destruct (decide (10 ≤ length s)%nat) as [Hs|Hs].
  - assert (Hl : length buf = 10%nat).
    { rewrite Htake, length_take. lia. }
    rewrite ptr_add_cstr by done. intros Hrec.
    apply IH in Hrec; cycle 1.
    { intros Hin. apply Hnul. rewrite <- (take_drop 10 s). apply elem_of_app. by right. }
    { rewrite length_drop. lia. }
    rewrite Hrest, Hl in Hrec.
    rewrite <- (take_drop 10 s), <- (take_drop 10 (f_rest file)).
    rewrite <- Htake. rewrite Hl in Hbuf. rewrite <- Hbuf. by apply prefix_app.
  - intros _. rewrite take_ge in Htake by lia. rewrite <- Htake, Hbuf.
    apply prefix_take.
Qed.

(** On a stream that reads without failure, a candidate whose length is no
    multiple of the block size is not accepted against a file that differs
    from it: the block at which the file goes on or stops short of the
    candidate is rejected. *)
Lemma stamp_loop_rejects fuel : ∀ content s after,
  NUL ∉ s →
  Z.of_nat (length s) < 2 ^ 31 →
  (length s `mod` STAMP_BUF_SIZE)%nat ≠ 0%nat →
  content ≠ s →
  stamp_loop fuel (mkFILE content None false) (cstr s after) ≠ Some 0.
Proof.
  induction fuel as [|fuel IH]; intros content s after Hnul Hlen Hmod Hne; [done|].
  destruct s as [|a s']; [by cbn in Hmod|].
  set (s := a :: s') in *.
  assert (Ha : a ≠ NUL) by (intros ->; apply Hnul; left).
  cbn [stamp_loop]. rewrite decide_False by done.
  rewrite fread_nofault. cbn [f_error].
  rewrite (decide_False (P := _ ∧ _)) by (intros [_ ?]; done).
  case_decide as Hd; [|intros [= ?]; done].
  apply block_diff_cstr in Hd as [Htake Hshort]; [|done|done|rewrite length_take; lia].
  rewrite length_take in Hshort. unfold STAMP_BUF_SIZE in *.
  destruct (decide (10 ≤ length content)%nat) as [Hc|Hc].
  - assert (Hs : (10 ≤ length s)%nat).
    { apply (f_equal length) in Htake. rewrite !length_take in Htake. lia. }
    rewrite ptr_add_cstr by lia. apply IH.
    + intros Hin. apply Hnul. rewrite <- (take_drop 10 s). apply elem_of_app. by right.
    + rewrite length_drop. lia.
    + rewrite length_drop.
      replace (length s) with ((length s - 10) + 1 * 10)%nat in Hmod by lia.
      by rewrite Nat.Div0.mod_add in Hmod.
    + intros Hd. apply Hne.
      by rewrite <- (take_drop 10 s), <- (take_drop 10 content), Htake, Hd.
  - exfalso. apply Hne. rewrite take_ge in Htake by lia.
    specialize (Hshort ltac:(lia)). rewrite Htake, take_ge; [done|lia].
Qed.

(** A stamp file that is stale for the marker makes check_file_stamp report
    a difference, whatever lies behind the marker in memory. *)
Lemma check_file_stamp_mismatch e file_name s after w :
  NUL ∉ s →
  Z.of_nat (length s) < 2 ^ 31 →
  stale_stamp e file_name s w →
  (check_file_stamp e file_name (cstr s after) w).1 ≠ 0.
Proof.
  intros Hnul Hlen Hst. unfold stale_stamp in Hst.
  destruct (w_files w !! stamp_path file_name) as [content|] eqn:Hf; cycle 1.
  { by rewrite check_file_stamp_absent. }
  unfold check_file_stamp, file_exists, fopen_rb. rewrite Hf.
  rewrite bool_decide_eq_true_2 by by eexists. cbn [negb].
  case_decide as Hden; [done|]. cbv zeta. cbn [fst].
  destruct (stamp_loop_total (S (length (cstr s after)))
              (mkFILE content (e_rd_fault e !! stamp_path file_name) false)
              (cstr s after) ltac:(lia)) as [z Hz].
  rewrite Hz. cbn [default from_option id]. intros ->.
  destruct Hst as [Hpre|([_ Hfault] & Hne & Hmod)].
  - apply Hpre. by apply stamp_loop_sound in Hz.
  - rewrite Hfault in Hz. by apply stamp_loop_rejects in Hz.
Qed.

(** For a candidate whose length is a multiple of the block size the
    comparison never looks behind the terminator, so that its answer does
    not depend on what lies there. *)
Lemma memcmp_in_bounds n : ∀ buf s after after',
  (n ≤ length s)%nat →
  memcmp buf (cstr s after) n = memcmp buf (cstr s after') n.
Proof.
  induction n as [|n IH]; intros buf s after after' Hn; [done|].
  destruct s as [|a s]; [simpl in Hn; lia|].
  cbn [memcmp]. change (byte_at (cstr (a :: s) after) 0) with a.
  change (byte_at (cstr (a :: s) after') 0) with a.
  change (tail (cstr (a :: s) after)) with (cstr s after).
  change (tail (cstr (a :: s) after')) with (cstr s after').
  case_decide; [|done]. apply IH. simpl in Hn. lia.
Qed.

Lemma block_diff_in_bounds buf s after after' :
  NUL ∉ s →
  (length buf ≤ length s)%nat →
  block_diff buf (cstr s after) = block_diff buf (cstr s after').
Proof.
  intros Hnul Hle. unfold block_diff. rewrite !strlen_cstr by done.
  by rewrite (memcmp_in_bounds _ buf s after after').
Qed.

Lemma stamp_loop_in_bounds fuel : ∀ file s after after',
  NUL ∉ s →
  (length s `mod` STAMP_BUF_SIZE)%nat = 0%nat →
  stamp_loop fuel file (cstr s after) = stamp_loop fuel file (cstr s after').
Proof.
  induction fuel as [|fuel IH]; intros file s after after' Hnul Hmod; [done|].
  destruct s as [|a s']; [done|].
  set (s := a :: s') in *.
  assert (Ha : a ≠ NUL) by (intros ->; apply Hnul; left).
  assert (Hs : (STAMP_BUF_SIZE ≤ length s)%nat).
  { unfold STAMP_BUF_SIZE in *. destruct (decide (length s < 10)%nat); [|lia].
    rewrite Nat.mod_small in Hmod by lia. simpl in Hmod. lia. }
  cbn [stamp_loop]. rewrite !decide_False by done.
  destruct (fread_delivers STAMP_BUF_SIZE file) as (_ & _ & Hle).
  destruct (fread STAMP_BUF_SIZE file) as [buf file']. cbn [fst snd] in *.
  case_decide; [done|].
  rewrite (block_diff_in_bounds buf s after after') by (done || lia).
  case_decide; [|done].
  rewrite !ptr_add_cstr by done. apply IH.
  - intros Hin. apply Hnul. rewrite <- (take_drop STAMP_BUF_SIZE s).
    apply elem_of_app. by right.
  - rewrite length_drop. unfold STAMP_BUF_SIZE in *.
    replace (length s) with ((length s - 10) + 1 * 10)%nat in Hmod by lia.
    by rewrite Nat.Div0.mod_add in Hmod.
Qed.

Lemma stamp_loop_fuel fuel : ∀ fuel' file p z,
  stamp_loop fuel file p = Some z →
  (fuel ≤ fuel')%nat →
  stamp_loop fuel' file p = Some z.
Proof.
  induction fuel as [|fuel IH]; intros fuel' file p z; [done|].
  destruct fuel' as [|fuel']; [lia|].
  cbn [stamp_loop]. case_decide; [done|].
  destruct (fread STAMP_BUF_SIZE file) as [buf file'].
  case_decide; [done|]. case_decide; [|done].
  intros Hz Hle. apply IH; [done|lia].
Qed.

Lemma check_file_stamp_in_bounds e file_name s after after' w :
  NUL ∉ s →
  (length s `mod` STAMP_BUF_SIZE)%nat = 0%nat →
  (check_file_stamp e file_name (cstr s after) w).1
  = (check_file_stamp e file_name (cstr s after') w).1.
Proof.
  intros Hnul Hmod. unfold check_file_stamp.
  destruct (file_exists _ _); cbn [negb]; [|done].
  destruct (fopen_rb _ _ _) as [[file|] w']; cbv zeta; cbn [fst]; [|done].
  set (n := S (length (cstr s after))). set (n' := S (length (cstr s after'))).
  destruct (stamp_loop_total n file (cstr s after) ltac:(lia)) as [z Hz].
  destruct (stamp_loop_total n' file (cstr s after') ltac:(lia)) as [z' Hz'].
  rewrite Hz, Hz'. cbn [default from_option id].
  apply (stamp_loop_fuel _ (n `max` n')) in Hz; [|lia].
  apply (stamp_loop_fuel _ (n `max` n')) in Hz'; [|lia].
  rewrite (stamp_loop_in_bounds _ file s after after') in Hz by done.
  congruence.
Qed.

(** ** The validator, step by step *)

Lemma perform_metadata e w :
  perform_curl_request e None
    (setopt (set_nobody true) (setopt (set_header true)
       (setopt (set_writeheader (Some etag_slot))
          (setopt (set_headerfunction (Some header_write_cb))
             (setopt (set_writefunction (Some dummy_write_cb)) w)))))
  = (r_code (metadata e w), etag_of (metadata e w), after_metadata e w).
Proof.
  unfold perform_curl_request, curl_easy_perform, after_metadata, metadata, etag_of.
  destruct w as [f [] b n tr]; simpl. repeat case_decide; try reflexivity; done.
Qed.

Lemma validate_unfold e src cache_location w :
  opkg_validate_cached_file e src cache_location w
  = let r := metadata e w in
    let w := after_metadata e w in
    if decide (r_code r = 0) then
      match check_cache e cache_location (etag_of r) w with
      | (match_, w) =>
          let w := refresh_stamp e cache_location (etag_of r) match_ w in
          match fopen_ab e cache_location w with
          | (false, w) =>
              cleanup (-1)
                (opkg_msg ("Failed to open cache file " +:+ cache_location +:+ nl) w)
          | (true, w) =>
              if decide (file_length w cache_location < r_length r)
              then cleanup 1 (setopt (set_resume_from (file_length w cache_location)) w)
              else cleanup 0 w
          end
      end
    else cleanup (-1)
           (log_curl_download_error e "Failed to download headers of" src (r_code r) w).
Proof.
  unfold opkg_validate_cached_file. rewrite perform_metadata. cbv zeta.
  by case_decide.
Qed.

(** Nothing but the handle is touched by [cleanup] and [setopt]. *)
Lemma body_transfer_metadata h : body_transfer (metadata_request h) = body_transfer h.
Proof. done. Qed.

Lemma body_transfer_resume n h :
  body_transfer (set_resume_from n (metadata_request h))
  = body_transfer (set_resume_from n h).
Proof. done. Qed.

Lemma cleanup_eq ret w :
  cleanup ret w = (ret, with_curl (body_transfer (w_curl w)) w).
Proof. done. Qed.

Lemma body_requests_snoc tr ev :
  (∀ h, ev = EvPerform h → opt_nobody h = true) →
  body_requests (tr ++ [ev]) = body_requests tr.
Proof.
  intros Hev. unfold body_requests. rewrite omap_app. cbn.
  destruct ev as [h| | | |]; try by rewrite app_nil_r.
  rewrite (Hev h eq_refl). by rewrite app_nil_r.
Qed.

Lemma same_transport_refl w : same_transport w w.
Proof. done. Qed.

Lemma same_transport_trans w1 w2 w3 :
  same_transport w1 w2 → same_transport w2 w3 → same_transport w1 w3.
Proof. unfold same_transport. intros (? & ? & ? & ?) (? & ? & ? & ?). repeat split; congruence. Qed.

Lemma same_transport_emit w ev :
  (∀ h, ev ≠ EvPerform h) → same_transport w (emit ev w).
Proof.
  intros Hev. repeat split. cbn. apply body_requests_snoc. intros h ->. by destruct (Hev h).
Qed.

Lemma same_transport_files w f : same_transport w (with_files f w).
Proof. done. Qed.

Ltac frame_step :=
  first [ apply same_transport_refl
        | eapply same_transport_trans; [|apply same_transport_emit; by intros ?]
        | eapply same_transport_trans; [|apply same_transport_files] ].

Lemma unlink_frame e path w : same_transport w (unlink e path w).
Proof. unfold unlink. case_decide; repeat frame_step. Qed.

Lemma fwrite_frame path data w : same_transport w (fwrite path data w).
Proof. unfold fwrite. repeat frame_step. Qed.

Lemma opkg_msg_frame line w : same_transport w (opkg_msg line w).
Proof. unfold opkg_msg. repeat frame_step. Qed.

Lemma fopen_wb_frame e path w : same_transport w (fopen_wb e path w).2.
Proof. unfold fopen_wb. case_decide; cbn [snd]; repeat frame_step. Qed.

Lemma fopen_ab_frame e path w : same_transport w (fopen_ab e path w).2.
Proof. unfold fopen_ab. case_decide; cbn [snd]; repeat frame_step. Qed.

Lemma fopen_rb_frame e path w :
  same_transport w (fopen_rb e path w).2 ∧ w_files (fopen_rb e path w).2 = w_files w.
Proof.
  unfold fopen_rb. case_decide; [|case_match]; cbn [snd]; (split; [repeat frame_step|done]).
Qed.

Lemma check_file_stamp_frame e file_name stamp w :
  same_transport w (check_file_stamp e file_name stamp w).2
  ∧ w_files (check_file_stamp e file_name stamp w).2 = w_files w.
Proof.
  unfold check_file_stamp. destruct (file_exists _ _); cbn [negb]; [|done].
  destruct (fopen_rb_frame e (stamp_path file_name) w) as [Ht Hf].
  destruct (fopen_rb _ _ _) as [[file|] w']; cbv zeta; cbn [snd] in *.
  - case_decide; [|done]. split; [|done].
    eapply same_transport_trans; [done|apply opkg_msg_frame].
  - split; [|done]. eapply same_transport_trans; [done|apply opkg_msg_frame].
Qed.

Lemma create_file_stamp_frame e file_name stamp w :
  same_transport w (create_file_stamp e file_name stamp w).2.
Proof.
  unfold create_file_stamp.
  assert (Ht := fopen_wb_frame e (stamp_path file_name) w).
  destruct (fopen_wb _ _ _) as [[] w']; cbn [snd] in *.
  - eapply same_transport_trans; [done|apply fwrite_frame].
  - eapply same_transport_trans; [done|apply opkg_msg_frame].
Qed.

Lemma check_cache_frame e cache_location etag w :
  same_transport w (check_cache e cache_location etag w).2.
Proof.
  unfold check_cache.
  destruct (file_exists w cache_location); [|done].
  destruct etag as [t|]; [|apply unlink_frame].
  destruct (check_file_stamp_frame e cache_location (etag_buffer e w t) w) as [H _].
  destruct (check_file_stamp _ _ _ _) as [d w']. cbn [snd] in *.
  case_decide; [done|]. eapply same_transport_trans; [done|apply unlink_frame].
Qed.

Lemma refresh_stamp_frame e cache_location etag m w :
  same_transport w (refresh_stamp e cache_location etag m w).
Proof.
  unfold refresh_stamp. destruct etag as [t|]; [|done]. destruct m; [done|].
  assert (Ht := create_file_stamp_frame e cache_location (etag_buffer e w t) w).
  destruct (create_file_stamp _ _ _ _) as [r w']. cbn [snd] in *.
  case_decide; [done|]. eapply same_transport_trans; [done|apply opkg_msg_frame].
Qed.

(** What becomes of the files. *)
Lemma check_cache_files e cache_location etag w :
  w_files (check_cache e cache_location etag w).2
  = if (check_cache e cache_location etag w).1 then w_files w
    else if decide (cache_location ∈ e_unlink_denied e) then w_files w
    else delete cache_location (w_files w).
Proof.
  unfold check_cache, file_exists, unlink.
  case_bool_decide as Hex.
  - destruct etag as [t|]; [|by cbn; case_decide].
    destruct (check_file_stamp_frame e cache_location (etag_buffer e w t) w) as [_ H].
    destruct (check_file_stamp _ _ _ _) as [d w']. cbn [snd] in *.
    repeat case_decide; cbn; by rewrite H.
  - cbn. case_decide; [done|]. rewrite delete_id; [done|]. by apply eq_None_not_Some.
Qed.

Lemma refresh_stamp_files e cache_location etag m w path :
  path ≠ stamp_path cache_location →
  w_files (refresh_stamp e cache_location etag m w) !! path = w_files w !! path.
Proof.
  intros Hp. unfold refresh_stamp. destruct etag as [t|]; [|done]. destruct m; [done|].
  unfold create_file_stamp, fopen_wb, fwrite.
  destruct (decide (stamp_path cache_location ∈ e_wr_denied e)); cbn;
    case_decide; cbn; rewrite ?lookup_insert_ne by done; done.
Qed.

Lemma string_length_app (s1 s2 : string) :
  String.length (s1 +:+ s2) = (String.length s1 + String.length s2)%nat.
Proof. induction s1 as [|c s1 IH]; simpl; [done|]. by rewrite IH. Qed.

Lemma stamp_path_neq file_name : file_name ≠ stamp_path file_name.
Proof.
  intros H. apply (f_equal String.length) in H.
  unfold stamp_path in H. rewrite string_length_app in H. simpl in H. lia.
Qed.

Lemma before_reopen_frame e cache_location w :
  same_transport (after_metadata e w) (before_reopen e cache_location w).
Proof.
  unfold before_reopen. eapply same_transport_trans;
    [apply check_cache_frame|apply refresh_stamp_frame].
Qed.

Lemma validate_failed e src cache_location w :
  r_code (metadata e w) ≠ 0 →
  opkg_validate_cached_file e src cache_location w
  = (-1, with_curl (body_transfer (w_curl w))
           (log_curl_download_error e "Failed to download headers of" src
              (r_code (metadata e w)) (after_metadata e w))).
Proof.
  intros Hr. rewrite validate_unfold. cbv zeta. rewrite decide_False by done.
  by rewrite cleanup_eq.
Qed.

Lemma validate_no_open e src cache_location w :
  r_code (metadata e w) = 0 →
  cache_location ∈ e_wr_denied e →
  opkg_validate_cached_file e src cache_location w
  = (-1, with_curl (body_transfer (w_curl w))
           (opkg_msg ("Failed to open cache file " +:+ cache_location +:+ nl)
              (emit (EvFopen cache_location "ab" false)
                 (before_reopen e cache_location w)))).
Proof.
  intros Hr Hd. rewrite validate_unfold. cbv zeta. rewrite decide_True by done.
  destruct (before_reopen_frame e cache_location w) as (Hc & _).
  unfold before_reopen in *.
  destruct (check_cache _ _ _ _) as [m w2]. cbn [fst snd] in *.
  unfold fopen_ab. rewrite decide_True by done.
  rewrite cleanup_eq. cbn. by rewrite Hc.
Qed.

Lemma validate_reopened e src cache_location w :
  r_code (metadata e w) = 0 →
  cache_location ∉ e_wr_denied e →
  let w3 := before_reopen e cache_location w in
  let L := measured_length e cache_location w in
  let w4 := emit (EvFopen cache_location "ab" true)
              (with_files (<[cache_location := default [] (w_files w3 !! cache_location)]>
                             (w_files w3)) w3) in
  opkg_validate_cached_file e src cache_location w
  = if decide (L < r_length (metadata e w))
    then (1, with_curl (body_transfer (set_resume_from L (w_curl w))) w4)
    else (0, with_curl (body_transfer (w_curl w)) w4).
Proof.
  intros Hr Hd. rewrite validate_unfold. cbv zeta. rewrite decide_True by done.
  destruct (before_reopen_frame e cache_location w) as (Hc & _).
  unfold measured_length, before_reopen in *.
  destruct (check_cache _ _ _ _) as [m w2]. cbn [fst snd] in *.
  unfold fopen_ab. rewrite decide_False by done.
  unfold file_length. cbn [w_files with_files emit].
  rewrite lookup_insert_eq. cbn [default from_option id].
  case_decide; rewrite cleanup_eq; cbn; by rewrite Hc.
Qed.

(** The measured length is the length of the cache file the validator
    leaves behind. *)
Lemma validate_measured e src cache_location w :
  r_code (metadata e w) = 0 →
  cache_location ∉ e_wr_denied e →
  file_length (opkg_validate_cached_file e src cache_location w).2 cache_location
  = measured_length e cache_location w.
Proof.
  intros Hr Hd. rewrite validate_reopened by done. cbv zeta.
  case_decide; unfold file_length; cbn; by rewrite lookup_insert_eq.
Qed.

(** ** The identity marker *)

Lemma take_strlen_nul_free p : ∀ k, (k ≤ strlen p)%nat → NUL ∉ take k p.
Proof.
  induction p as [|c p IH]; intros k Hk.
  - rewrite take_nil. apply not_elem_of_nil.
  - destruct k as [|k]; [apply not_elem_of_nil|].
    simpl in Hk. destruct (decide (c = NUL)) as [|Hc]; [lia|].
    cbn [take]. apply not_elem_of_cons. split; [congruence|]. apply IH. lia.
Qed.

Lemma strndup_nul_free p n : NUL ∉ strndup p n.
Proof. unfold strndup. apply take_strlen_nul_free. lia. Qed.

Lemma header_write_nul_free line out :
  (∀ t, out = Some t → NUL ∉ t) →
  ∀ t, header_write line out = Some t → NUL ∉ t.
Proof.
  intros Hout t. unfold header_write. cbv zeta.
  destruct (str_starts_with _ _); [|apply Hout].
  destruct (strchr line DQUOTE) as [i|]; [|apply Hout].
  destruct (strrchr line DQUOTE) as [j|]; [|apply Hout].
  case_decide; [|apply Hout].
  intros [= <-]. apply strndup_nul_free.
Qed.

Lemma etag_of_nul_free r t : etag_of r = Some t → NUL ∉ t.
Proof.
  unfold etag_of.
  assert (H : ∀ lines out, (∀ t, out = Some t → NUL ∉ t) →
              ∀ t, foldl (λ out line, header_write line out) out lines = Some t → NUL ∉ t).
  { induction lines as [|line lines IH]; intros out Hout; [done|].
    cbn [foldl]. apply IH. by apply header_write_nul_free. }
  apply H. done.
Qed.

(** A marker, when there is one, is not empty: the callback stores the
    bytes between the first and the last quote only if there are any. *)
Lemma strrchr_lt p c : ∀ j, c ≠ NUL → strrchr p c = Some j → (j < strlen p)%nat.
Proof.
  induction p as [|x q IH]; intros j Hc; [done|]. simpl.
  destruct (decide (x = NUL)); [done|].
  destruct (strrchr q c) as [i|] eqn:Hq.
  - intros [= <-]. specialize (IH i Hc eq_refl). lia.
  - destruct (decide (x = c)); [|done]. intros [= <-]. lia.
Qed.

Lemma strlen_ptr_add p : ∀ k, (k ≤ strlen p)%nat → strlen (ptr_add p k) = (strlen p - k)%nat.
Proof.
  unfold ptr_add. induction p as [|x q IH]; intros k Hk.
  - by rewrite drop_nil.
  - destruct k as [|k]; [by rewrite Nat.sub_0_r|].
    simpl in *. destruct (decide (x = NUL)); [lia|]. apply IH. lia.
Qed.

Lemma header_write_nonempty line out :
  (∀ t, out = Some t → t ≠ []) →
  ∀ t, header_write line out = Some t → t ≠ [].
Proof.
  intros Hout t. unfold header_write. cbv zeta.
  destruct (str_starts_with _ _); [|apply Hout].
  destruct (strchr line DQUOTE) as [i|]; [|apply Hout].
  destruct (strrchr line DQUOTE) as [j|] eqn:Hj; [|apply Hout].
  case_decide as Hij; [|apply Hout].
  intros [= <-]. apply strrchr_lt in Hj; [|done].
  change (strndup (ptr_add line (S i)) (j - S i) ≠ []).
  unfold strndup. rewrite strlen_ptr_add by lia.
  intros Hnil. apply (f_equal length) in Hnil.
  rewrite length_take in Hnil. unfold ptr_add in Hnil. rewrite length_drop in Hnil.
  assert (Hle := strlen_le line). simpl in Hnil. lia.
Qed.

Lemma etag_of_nonempty r t : etag_of r = Some t → t ≠ [].
Proof.
  unfold etag_of.
  assert (H : ∀ lines out, (∀ t, out = Some t → t ≠ []) →
              ∀ t, foldl (λ out line, header_write line out) out lines = Some t → t ≠ []).
  { induction lines as [|line lines IH]; intros out Hout; [done|].
    cbn [foldl]. apply IH. by apply header_write_nonempty. }
  apply H. done.
Qed.

(** ** Transport failure during validation *)

(** C9: when the metadata-only request fails, the validator returns -1 and
    has made no change to local state: the files are as before, and the
    only things done are the request itself and one log line, so the cache
    file was neither removed nor opened and no stamp was written. *)
Theorem validate_transport_failure_atomic e src cache_location w :
  r_code (metadata e w) ≠ 0 →
  let v := opkg_validate_cached_file e src cache_location w in
  v.1 = -1
  ∧ w_files v.2 = w_files w
  ∧ w_trace v.2
    = w_trace w ++
      [EvPerform (metadata_request (w_curl w));
       EvMsg (download_error_text (r_detail (metadata e w))
                (e_strerror e (r_code (metadata e w)))
                "Failed to download headers of" src)].
Proof.
  intros Hr v. subst v. rewrite validate_failed by done.
  cbn. rewrite decide_False by done. by rewrite <- (assoc_L (++)).
Qed.

(** ** The handle after validation *)

Lemma body_transfer_set_resume n h :
  body_transfer (set_resume_from n h) = set_resume_from n (body_transfer h).
Proof. done. Qed.

Lemma validate_cases e src cache_location w :
  let v := opkg_validate_cached_file e src cache_location w in
  (v.1 = -1 ∧ w_curl v.2 = body_transfer (w_curl w))
  ∨ (v.1 = 0 ∧ w_curl v.2 = body_transfer (w_curl w))
  ∨ (v.1 = 1
     ∧ w_curl v.2
       = body_transfer (set_resume_from (file_length v.2 cache_location) (w_curl w))).
Proof.
  intros v. subst v.
  destruct (decide (r_code (metadata e w) = 0)) as [Hr|Hr]; cycle 1.
  { left. by rewrite validate_failed. }
  destruct (decide (cache_location ∈ e_wr_denied e)) as [Hd|Hd].
  { left. by rewrite validate_no_open. }
  assert (Hm := validate_measured e src cache_location w Hr Hd).
  rewrite validate_reopened in * by done. cbv zeta in *.
  case_decide; [right; right|right; left]; cbn [fst snd] in *; rewrite ?Hm; done.
Qed.

(** C10: whichever way the validator returns (-1, 0 or 1), the options of
    the metadata-only request are back at their body-transfer values and the
    other options are as before, except that the resume offset has been set,
    to the measured length, exactly when the result is 1.  For a handle that
    was in its body-transfer state before, only the resume offset differs. *)
Theorem validate_restores_handle e src cache_location w :
  let v := opkg_validate_cached_file e src cache_location w in
  let h := if decide (v.1 = 1)
           then set_resume_from (file_length v.2 cache_location) (w_curl w)
           else w_curl w in
  (v.1 = -1 ∨ v.1 = 0 ∨ v.1 = 1)
  ∧ w_curl v.2 = body_transfer h
  ∧ (body_transfer (w_curl w) = w_curl w → w_curl v.2 = h).
Proof.
  intros v h. subst h.
  destruct (validate_cases e src cache_location w) as [[E H]|[[E H]|[E H]]];
    fold v in E, H; rewrite E, H; cbn.
  - split; [auto|]. split; [done|]. by intros ->.
  - split; [auto|]. split; [done|]. by intros ->.
  - split; [auto|]. split; [done|]. intros Hb. by rewrite body_transfer_set_resume, Hb.
Qed.

Lemma validate_restores_handle_witness :
  let e := plain_env (ok_response None 1000) [] in
  w_curl (opkg_validate_cached_file e "u" "f" (start ∅)).2
  = set_resume_from 0 idle_handle.
Proof.
  intros e.
  destruct (validate_restores_handle e "u" "f" (start ∅)) as (_ & _ & H).
  apply H. reflexivity.
Defined.

(** ** Resume arithmetic *)

Lemma after_metadata_requests e w :
  body_requests (w_trace (after_metadata e w)) = body_requests (w_trace w).
Proof. cbn. by apply body_requests_snoc; intros h [= <-]. Qed.

Lemma validate_requests e src cache_location w :
  body_requests (w_trace (opkg_validate_cached_file e src cache_location w).2)
  = body_requests (w_trace w).
Proof.
  rewrite <- (after_metadata_requests e w).
  destruct (decide (r_code (metadata e w) = 0)) as [Hr|Hr]; cycle 1.
  { rewrite validate_failed by done. cbn. by apply body_requests_snoc. }
  destruct (before_reopen_frame e cache_location w) as (_ & _ & _ & Hq).
  rewrite <- Hq.
  destruct (decide (cache_location ∈ e_wr_denied e)) as [Hd|Hd].
  { rewrite validate_no_open by done. cbn.
    rewrite <- (assoc_L (++)). unfold body_requests. rewrite omap_app. cbn.
    by rewrite app_nil_r. }
  rewrite validate_reopened by done. cbv zeta.
  case_decide; cbn; by apply body_requests_snoc.
Qed.

Lemma backend_returns_early e src dest w :
  (opkg_validate_cached_file e src dest (setopt (set_url src) w)).1 ≤ 0 →
  opkg_download_backend e src dest true w
  = opkg_validate_cached_file e src dest (setopt (set_url src) w).
Proof.
  intros H. unfold opkg_download_backend.
  destruct (opkg_validate_cached_file _ _ _ _) as [ret w']. cbn in H.
  by rewrite decide_True.
Qed.

(** The length the validator measures is that of the file it found, when
    it judged the cache fresh or could not remove it, and 0 otherwise. *)
Lemma measured_length_cases e cache_location w :
  measured_length e cache_location w
  = if (check_cache e cache_location (etag_of (metadata e w)) (after_metadata e w)).1
    then file_length w cache_location
    else if decide (cache_location ∈ e_unlink_denied e)
         then file_length w cache_location
         else 0.
Proof.
  unfold measured_length, before_reopen, file_length.
  rewrite refresh_stamp_files by apply stamp_path_neq.
  rewrite check_cache_files.
  destruct (check_cache _ _ _ _).1; [done|].
  case_decide; [done|]. by rewrite lookup_delete_eq.
Qed.



(** ** Unknown remote size *)

Lemma measured_length_nonneg e cache_location w : 0 ≤ measured_length e cache_location w.
Proof. unfold measured_length, file_length. lia. Qed.

(** C2 (what the code does): when the remote size is reported as -1, the
    validator never returns 1.  If the request succeeded and the cache file
    can be reopened it returns 0, does not touch the resume offset, and the
    download entry point returns 0 without asking for a body. *)
Theorem validate_unknown_size_is_complete e src cache_location w :
  r_length (metadata e w) = -1 →
  let v := opkg_validate_cached_file e src cache_location w in
  v.1 ≠ 1
  ∧ opt_resume_from (w_curl v.2) = opt_resume_from (w_curl w)
  ∧ (r_code (metadata e w) = 0 → cache_location ∉ e_wr_denied e →
     v.1 = 0
     ∧ ∀ w0, w = setopt (set_url src) w0 →
             opkg_download_backend e src cache_location true w0 = (0, v.2)).
Proof.
  intros HR v.
  destruct (decide (r_code (metadata e w) = 0)) as [Hr|Hr]; cycle 1.
  { subst v. rewrite validate_failed by done. done. }
  destruct (decide (cache_location ∈ e_wr_denied e)) as [Hd|Hd].
  { subst v. rewrite validate_no_open by done. done. }
  assert (HL := measured_length_nonneg e cache_location w).
  assert (Hv := validate_reopened e src cache_location w Hr Hd). cbv zeta in Hv.
  rewrite HR, decide_False in Hv by lia. fold v in Hv.
  rewrite Hv. cbn [fst snd]. repeat split; try done.
  intros w0 Hw. rewrite backend_returns_early; rewrite <- Hw; fold v; rewrite Hv; done.
Qed.

Lemma validate_unknown_size_is_complete_witness :
  let e := plain_env (ok_response (Some "abc") (-1)) [] in
  (opkg_validate_cached_file e "u" "f" (setopt (set_url "u") (start ∅))).1 = 0
  ∧ (opkg_download_backend e "u" "f" true (start ∅)).1 = 0
  ∧ w_files (opkg_download_backend e "u" "f" true (start ∅)).2 !! "f" = Some []
  ∧ body_requests (w_trace (opkg_download_backend e "u" "f" true (start ∅)).2) = [].
Proof.
  intros e.
  destruct (validate_unknown_size_is_complete e "u" "f" (setopt (set_url "u") (start ∅)))
    as (_ & _ & H); [reflexivity|].
  destruct H as [H0 H1]; [reflexivity|apply not_elem_of_empty|].
  split; [exact H0|]. rewrite (H1 (start ∅) eq_refl). repeat split; by vm_compute.
Defined.

(** ** A stamp that cannot be written *)

Lemma refresh_stamp_denied e cache_location t w :
  stamp_path cache_location ∈ e_wr_denied e →
  refresh_stamp e cache_location (Some t) false w
  = opkg_msg ("Failed to create stamp for " +:+ cache_location +:+ "." +:+ nl)
      (opkg_msg ("Failed to open file " +:+ stamp_path cache_location +:+ nl)
         (emit (EvFopen (stamp_path cache_location) "wb" false) w)).
Proof.
  intros Hd. unfold refresh_stamp, etag_buffer. rewrite create_file_stamp_denied by done.
  by rewrite decide_False.
Qed.

Lemma refresh_stamp_written e cache_location t w :
  stamp_path cache_location ∉ e_wr_denied e →
  NUL ∉ t →
  refresh_stamp e cache_location (Some t) false w
  = emit (EvFwrite (stamp_path cache_location) t)
      (emit (EvFopen (stamp_path cache_location) "wb" true)
         (with_files (<[stamp_path cache_location := t]> (w_files w)) w)).
Proof.
  intros Hd Hnul. unfold refresh_stamp, etag_buffer. rewrite create_file_stamp_ok by done.
  by rewrite decide_True.
Qed.

(** C7: when the request succeeded, a marker was obtained and the cache is
    not fresh, a stamp file that cannot be opened for writing costs two log
    lines and nothing else: the result, the handle and the cache file are
    what they are in the environment where the stamp file can be written
    (and where it then holds the marker). *)
Theorem stamp_write_failure_is_not_fatal e src cache_location w t :
  r_code (metadata e w) = 0 →
  etag_of (metadata e w) = Some t →
  (check_cache e cache_location (Some t) (after_metadata e w)).1 = false →
  stamp_path cache_location ∈ e_wr_denied e →
  let v := opkg_validate_cached_file e src cache_location w in
  let v' := opkg_validate_cached_file
              (allow_write (stamp_path cache_location) e) src cache_location w in
  v.1 = v'.1
  ∧ w_curl v.2 = w_curl v'.2
  ∧ w_files v.2 !! cache_location = w_files v'.2 !! cache_location
  ∧ EvMsg ("Failed to create stamp for " +:+ cache_location +:+ "." +:+ nl) ∈ w_trace v.2
  ∧ w_files v'.2 !! stamp_path cache_location = Some t.
Proof.
  intros Hr Het Hm Hd. cbv zeta.
  set (e' := allow_write (stamp_path cache_location) e).
  assert (Hnul := etag_of_nul_free _ _ Het).
  assert (Hne := stamp_path_neq cache_location).
  assert (Hd' : stamp_path cache_location ∉ e_wr_denied e').
  { cbn. rewrite elem_of_difference, elem_of_singleton. tauto. }
  assert (Hcd : cache_location ∈ e_wr_denied e' ↔ cache_location ∈ e_wr_denied e).
  { cbn. rewrite elem_of_difference, elem_of_singleton. tauto. }
  (* the state before the cache file is reopened, in both environments *)
  assert (H3 : before_reopen e cache_location w
               = refresh_stamp e cache_location (Some t) false
                   (check_cache e cache_location (Some t) (after_metadata e w)).2).
  { unfold before_reopen. by rewrite Het, Hm. }
  assert (H3' : before_reopen e' cache_location w
                = refresh_stamp e' cache_location (Some t) false
                    (check_cache e cache_location (Some t) (after_metadata e w)).2).
  { unfold before_reopen. change (metadata e' w) with (metadata e w).
    change (after_metadata e' w) with (after_metadata e w). rewrite Het.
    change (check_cache e' cache_location (Some t) (after_metadata e w))
      with (check_cache e cache_location (Some t) (after_metadata e w)).
    by rewrite Hm. }
  set (w2 := (check_cache e cache_location (Some t) (after_metadata e w)).2) in *.
  rewrite refresh_stamp_denied in H3 by done.
  rewrite refresh_stamp_written in H3' by done.
  assert (HL : measured_length e' cache_location w = measured_length e cache_location w).
  { unfold measured_length, file_length. rewrite H3, H3'. cbn.
    by rewrite lookup_insert_ne. }
  destruct (decide (cache_location ∈ e_wr_denied e)) as [Hc|Hc].
  - rewrite (validate_no_open e), (validate_no_open e') by (done || by apply Hcd).
    rewrite H3, H3'. cbn. rewrite lookup_insert_ne, lookup_insert_eq by done.
    repeat split. rewrite !elem_of_app, !list_elem_of_singleton. tauto.
  - rewrite (validate_reopened e), (validate_reopened e') by (done || by rewrite Hcd).
    cbv zeta. rewrite HL. change (metadata e' w) with (metadata e w).
    rewrite H3, H3'.
    case_decide; cbn; rewrite !lookup_insert_eq, !lookup_insert_ne by done;
      rewrite lookup_insert_eq; repeat split;
      rewrite !elem_of_app, !list_elem_of_singleton; tauto.
Qed.

(** ** A cache that is not fresh *)

Lemma check_cache_stale e cache_location t w :
  is_Some (w_files w !! cache_location) →
  (check_file_stamp e cache_location (etag_buffer e w t) w).1 ≠ 0 →
  check_cache e cache_location (Some t) w
  = (false, unlink e cache_location
              (check_file_stamp e cache_location (etag_buffer e w t) w).2).
Proof.
  intros Hex Hd. unfold check_cache, file_exists.
  rewrite bool_decide_eq_true_2 by done.
  destruct (check_file_stamp _ _ _ _) as [d w']. cbn in *. by rewrite decide_False.
Qed.

Lemma check_cache_no_marker e cache_location w :
  is_Some (w_files w !! cache_location) →
  check_cache e cache_location None w = (false, unlink e cache_location w).
Proof.
  intros Hex. unfold check_cache, file_exists. by rewrite bool_decide_eq_true_2.
Qed.

(** What [unlink] does to the files and to the trace. *)
Lemma unlink_removes e path w :
  path ∉ e_unlink_denied e → w_files (unlink e path w) = delete path (w_files w).
Proof. intros H. unfold unlink. by rewrite decide_False. Qed.

Lemma unlink_trace e path w : w_trace (unlink e path w) = w_trace w ++ [EvUnlink path].
Proof. unfold unlink. by case_decide. Qed.

(** Each step of the validator adds to the trace. *)
Lemma refresh_stamp_trace e cache_location etag m w :
  w_trace w `prefix_of` w_trace (refresh_stamp e cache_location etag m w).
Proof.
  unfold refresh_stamp. destruct etag as [t|]; [|done]. destruct m; [done|].
  unfold create_file_stamp, fopen_wb, fwrite.
  destruct (decide (stamp_path cache_location ∈ e_wr_denied e)); cbn;
    case_decide; cbn; rewrite <- ?(assoc_L (++)); by apply prefix_app_r.
Qed.

Lemma validate_trace e src cache_location w :
  r_code (metadata e w) = 0 →
  w_trace (before_reopen e cache_location w)
  `prefix_of` w_trace (opkg_validate_cached_file e src cache_location w).2.
Proof.
  intros Hr. destruct (decide (cache_location ∈ e_wr_denied e)) as [Hd|Hd].
  - rewrite validate_no_open by done. cbn.
    rewrite <- (assoc_L (++)). by apply prefix_app_r.
  - rewrite validate_reopened by done. cbv zeta.
    case_decide; cbn; by apply prefix_app_r.
Qed.

(** The validator's results when the state before the cache file is
    reopened has no cache file. *)
Lemma validate_from_scratch e src cache_location w :
  r_code (metadata e w) = 0 →
  w_files (before_reopen e cache_location w) !! cache_location = None →
  let v := opkg_validate_cached_file e src cache_location w in
  (∀ path, path ≠ cache_location →
           w_files v.2 !! path = w_files (before_reopen e cache_location w) !! path)
  ∧ (cache_location ∈ e_wr_denied e → w_files v.2 !! cache_location = None ∧ v.1 = -1)
  ∧ (cache_location ∉ e_wr_denied e →
     w_files v.2 !! cache_location = Some []
     ∧ v.1 = (if decide (0 < r_length (metadata e w)) then 1 else 0)
     ∧ (0 < r_length (metadata e w) → opt_resume_from (w_curl v.2) = 0)).
Proof.
  intros Hr Hnone. cbv zeta.
  assert (HL : measured_length e cache_location w = 0).
  { unfold measured_length, file_length. by rewrite Hnone. }
  destruct (decide (cache_location ∈ e_wr_denied e)) as [Hd|Hd].
  - rewrite validate_no_open by done. cbn. done.
  - rewrite validate_reopened by done. cbv zeta. rewrite HL, Hnone.
    case_decide; cbn; rewrite lookup_insert_eq;
      (split; [by intros; rewrite lookup_insert_ne|]); done.
Qed.

(** The files other than the cache file are, after the validator, what
    they were before it reopened the cache file. *)
Lemma validate_other_files e src cache_location w path :
  r_code (metadata e w) = 0 →
  path ≠ cache_location →
  w_files (opkg_validate_cached_file e src cache_location w).2 !! path
  = w_files (before_reopen e cache_location w) !! path.
Proof.
  intros Hr Hp. destruct (decide (cache_location ∈ e_wr_denied e)) as [Hd|Hd].
  - by rewrite validate_no_open.
  - rewrite validate_reopened by done. cbv zeta.
    case_decide; cbn; by rewrite lookup_insert_ne.
Qed.

(** C5 (amended): when the request succeeded, the cache file exists, a
    marker was obtained and the persisted stamp is stale for it, the
    validator calls [unlink] on the cache file, and the stamp file holds the
    marker afterwards if it can be opened for writing.  If the unlink takes
    effect, the cache file is gone when it cannot be reopened, and is empty
    when it can, whatever its length was, so that for a remote size above
    zero the result is 1 with resume offset 0, and for a remote size of zero
    the result is 0. *)
Theorem stale_cache_is_discarded e src cache_location w t :
  r_code (metadata e w) = 0 →
  is_Some (w_files w !! cache_location) →
  etag_of (metadata e w) = Some t →
  Z.of_nat (length t) < 2 ^ 31 →
  stale_stamp e cache_location t w →
  let v := opkg_validate_cached_file e src cache_location w in
  EvUnlink cache_location ∈ w_trace v.2
  ∧ (stamp_path cache_location ∉ e_wr_denied e →
     w_files v.2 !! stamp_path cache_location = Some t)
  ∧ (cache_location ∉ e_unlink_denied e →
     (cache_location ∈ e_wr_denied e → w_files v.2 !! cache_location = None ∧ v.1 = -1)
     ∧ (cache_location ∉ e_wr_denied e →
        w_files v.2 !! cache_location = Some []
        ∧ (0 < r_length (metadata e w) → v.1 = 1 ∧ opt_resume_from (w_curl v.2) = 0)
        ∧ (r_length (metadata e w) = 0 → v.1 = 0))).
Proof.
  intros Hr Hex Het Hlen Hstale. cbv zeta.
  assert (Hnul := etag_of_nul_free _ _ Het).
  assert (Hne := stamp_path_neq cache_location).
  assert (Hdiff : (check_file_stamp e cache_location
                     (etag_buffer e (after_metadata e w) t) (after_metadata e w)).1 ≠ 0).
  { by apply check_file_stamp_mismatch. }
  assert (H3 : before_reopen e cache_location w
               = refresh_stamp e cache_location (Some t) false
                   (unlink e cache_location
                      (check_file_stamp e cache_location
                         (etag_buffer e (after_metadata e w) t) (after_metadata e w)).2)).
  { unfold before_reopen. rewrite Het. by rewrite check_cache_stale. }
  destruct (check_file_stamp_frame e cache_location
              (etag_buffer e (after_metadata e w) t) (after_metadata e w)) as [_ Hf].
  set (w1 := (check_file_stamp _ _ _ _).2) in *.
  split; [|split].
  - eapply elem_of_prefix; [|by apply validate_trace].
    rewrite H3. eapply elem_of_prefix; [|apply refresh_stamp_trace].
    rewrite unlink_trace, elem_of_app, list_elem_of_singleton. by right.
  - intros Hs. rewrite validate_other_files by done.
    rewrite H3, refresh_stamp_written by done. cbn. apply lookup_insert_eq.
  - intros Hu.
    assert (Hnone : w_files (before_reopen e cache_location w) !! cache_location = None).
    { rewrite H3, refresh_stamp_files by done. rewrite unlink_removes by done.
      apply lookup_delete_eq. }
    destruct (validate_from_scratch e src cache_location w Hr Hnone) as (_ & Hden & Hok).
    split; [done|].
    intros Hd. destruct (Hok Hd) as (H1 & H2 & H4). split; [done|]. split.
    + intros HR. rewrite H2. rewrite decide_True by done. auto.
    + intros HR. rewrite H2, HR. by rewrite decide_False.
Qed.

(** C6 (amended): when the request succeeded, the cache file exists and the
    response carries no marker, no stamp is written (the stamp file is left
    as it is) and the validator calls [unlink] on the cache file all the
    same: if the cache file can be reopened it has done nothing but the
    request, the unlink and the reopening.  If the unlink takes effect, the
    cache file is gone when it cannot be reopened, and is empty when it can,
    so that the result is the resume arithmetic over an empty file. *)
Theorem missing_marker_discards_cache e src cache_location w :
  r_code (metadata e w) = 0 →
  is_Some (w_files w !! cache_location) →
  etag_of (metadata e w) = None →
  let v := opkg_validate_cached_file e src cache_location w in
  w_files v.2 !! stamp_path cache_location = w_files w !! stamp_path cache_location
  ∧ (cache_location ∉ e_wr_denied e →
     w_trace v.2 = w_trace w ++ [EvPerform (metadata_request (w_curl w));
                                   EvUnlink cache_location;
                                   EvFopen cache_location "ab" true])
  ∧ (cache_location ∉ e_unlink_denied e →
     (cache_location ∈ e_wr_denied e → w_files v.2 !! cache_location = None ∧ v.1 = -1)
     ∧ (cache_location ∉ e_wr_denied e →
        w_files v.2 !! cache_location = Some []
        ∧ (0 < r_length (metadata e w) → v.1 = 1 ∧ opt_resume_from (w_curl v.2) = 0)
        ∧ (r_length (metadata e w) = 0 → v.1 = 0))).
Proof.
  intros Hr Hex Het. cbv zeta.
  assert (Hne := stamp_path_neq cache_location).
  assert (H3 : before_reopen e cache_location w
               = unlink e cache_location (after_metadata e w)).
  { unfold before_reopen. rewrite Het. by rewrite check_cache_no_marker. }
  split; [|split].
  - rewrite validate_other_files by done. rewrite H3. unfold unlink.
    case_decide; cbn; [done|]. by rewrite lookup_delete_ne.
  - intros Hd. rewrite validate_reopened by done. cbv zeta. rewrite H3.
    destruct (decide (measured_length e cache_location w < _));
      cbn [snd w_trace with_curl emit with_files];
      rewrite unlink_trace; cbn; by rewrite <- !(assoc_L (++)).
  - intros Hu.
    assert (Hnone : w_files (before_reopen e cache_location w) !! cache_location = None).
    { rewrite H3, unlink_removes by done. apply lookup_delete_eq. }
    destruct (validate_from_scratch e src cache_location w Hr Hnone) as (_ & Hden & Hok).
    split; [done|].
    intros Hd. destruct (Hok Hd) as (H1 & H2 & H4). split; [done|]. split.
    + intros HR. rewrite H2. rewrite decide_True by done. auto.
    + intros HR. rewrite H2, HR. by rewrite decide_False.
Qed.

(** ** The text of a failure report *)

Lemma trailing_newlines_le s : (trailing_newlines s ≤ String.length s)%nat.
Proof. induction s as [|c s IH]; simpl; [done|]. case_decide; lia. Qed.

Lemma trailing_newlines_app s1 s2 :
  trailing_newlines (s1 +:+ s2)
  = if decide (trailing_newlines s2 = String.length s2)
    then (trailing_newlines s1 + String.length s2)%nat
    else trailing_newlines s2.
Proof.
  induction s1 as [|c s1 IH]; simpl.
  - case_decide; [by symmetry|done].
  - rewrite IH, string_length_app.
    assert (Hle := trailing_newlines_le s2). assert (Hle1 := trailing_newlines_le s1).
    repeat case_decide; try lia; destruct_and?; try done;
      exfalso; match goal with H : ¬ _ |- _ => apply H; split; [lia|done] end.
Qed.

Lemma string_app_assoc (s1 s2 s3 : string) :
  (s1 +:+ s2) +:+ s3 = s1 +:+ s2 +:+ s3.
Proof.
  induction s1 as [|c s1 IH]; [done|].
  change (String c ((s1 +:+ s2) +:+ s3) = String c (s1 +:+ s2 +:+ s3)). by rewrite IH.
Qed.

Lemma trailing_newlines_last s :
  s ≠ "" →
  String.get (String.length s - 1) s = Some LF ↔ (0 < trailing_newlines s)%nat.
Proof.
  induction s as [|c s IH]; [done|]. intros _. simpl.
  rewrite Nat.sub_0_r.
  destruct s as [|c' s']; simpl.
  - destruct (decide (0%nat = 0%nat ∧ c = LF)) as [[_ ->]|Hn]; [split; [lia|done]|].
    split; [|lia]. intros [= ->]. by destruct Hn.
  - simpl in IH. rewrite Nat.sub_0_r in IH. rewrite IH by done.
    destruct (decide (_ = S (String.length s') ∧ c = LF)); lia.
Qed.

(** The shape of the text, with the rule for the closing newline stated on
    the error buffer. *)
Lemma download_error_text_shape errbuf generic msg src_url :
  download_error_text errbuf generic msg src_url
  = msg +:+ " " +:+ src_url +:+ ": "
    +:+ (if decide (errbuf = "") then generic else errbuf)
    +:+ (if decide (errbuf ≠ "" ∧ 0 < trailing_newlines errbuf)%nat then "" else nl).
Proof.
  unfold download_error_text. destruct errbuf as [|c b]; [done|].
  set (s := String c b). cbv zeta.
  rewrite (decide_False (P := String.length s = 0%nat)) by done.
  rewrite (bool_decide_eq_false_2 (String.length s = 0%nat)) by done. cbn [negb andb].
  rewrite (decide_False (P := s = "")) by done.
  assert (Hl := trailing_newlines_last s ltac:(done)).
  assert (Hs : s ≠ "") by done.
  case_bool_decide; case_decide; try done; exfalso; tauto.
Qed.

Lemma trailing_newlines_report (prefix detail : string) :
  trailing_newlines (prefix +:+ ": " +:+ detail)
  = trailing_newlines detail.
Proof.
  rewrite trailing_newlines_app. rewrite decide_False; [|].
  - change (": " +:+ detail) with (String ":" (String " " detail)).
    cbn [trailing_newlines]. rewrite (decide_False (P := _ ∧ " "%char = LF)) by (by intros [_ ?]).
    rewrite decide_False; [done|]. intros [H _]. cbn in H.
    assert (Hle := trailing_newlines_le detail). lia.
  - change (": " +:+ detail) with (String ":" (String " " detail)).
    cbn [trailing_newlines]. rewrite (decide_False (P := _ ∧ " "%char = LF)) by (by intros [_ ?]).
    assert (Hle := trailing_newlines_le detail).
    case_decide; cbn; lia.
Qed.

Lemma download_error_text_newlines errbuf generic msg src_url :
  trailing_newlines (download_error_text errbuf generic msg src_url)
  = if decide (errbuf = "") then S (trailing_newlines generic)
    else (1 `max` trailing_newlines errbuf)%nat.
Proof.
  rewrite download_error_text_shape.
  replace (msg +:+ " " +:+ src_url +:+ ": " +:+ (if decide (errbuf = "") then generic else errbuf)
           +:+ (if decide (errbuf ≠ "" ∧ 0 < trailing_newlines errbuf)%nat then "" else nl))
    with ((msg +:+ " " +:+ src_url) +:+ ": " +:+
          ((if decide (errbuf = "") then generic else errbuf)
           +:+ (if decide (errbuf ≠ "" ∧ 0 < trailing_newlines errbuf)%nat then "" else nl))).
  2:{ generalize (": " +:+
          ((if decide (errbuf = "") then generic else errbuf)
           +:+ (if decide (errbuf ≠ "" ∧ 0 < trailing_newlines errbuf)%nat then "" else nl))).
      intros x. by rewrite string_app_assoc. }
  rewrite trailing_newlines_report.
  assert (Hnl : trailing_newlines nl = 1%nat) by (by vm_compute).
  destruct (decide (errbuf = "")) as [->|Hne].
  - rewrite (decide_False (P := _ ∧ _)) by (intros [? _]; done).
    rewrite trailing_newlines_app, Hnl. change (String.length nl) with 1%nat.
    rewrite decide_True by done. lia.
  - destruct (decide (0 < trailing_newlines errbuf)%nat) as [Hpos|Hz].
    + rewrite (decide_True (P := _ ∧ _)) by done.
      rewrite trailing_newlines_app. change (trailing_newlines "") with 0%nat.
      change (String.length "") with 0%nat. rewrite decide_True by done. lia.
    + rewrite (decide_False (P := _ ∧ _)) by (by intros [_ ?]).
      rewrite trailing_newlines_app, Hnl. change (String.length nl) with 1%nat.
      rewrite decide_True by done. lia.
Qed.

(** C8 (amended): the report is "msg url: detail", where the detail is the
    error buffer if that is not empty and the generic description of the
    code otherwise, followed by one newline unless a non-empty buffer ends in
    a newline already.  If a non-empty buffer ends in at most one newline,
    and the generic description used for an empty buffer ends in none, the
    report ends with exactly one newline. *)
Theorem failure_report_newline e msg src_url res w :
  (w_errbuf w ≠ "" → (trailing_newlines (w_errbuf w) ≤ 1)%nat) →
  (w_errbuf w = "" → trailing_newlines (e_strerror e res) = 0%nat) →
  let line := msg +:+ " " +:+ src_url +:+ ": "
              +:+ (if decide (w_errbuf w = "") then e_strerror e res else w_errbuf w)
              +:+ (if decide (w_errbuf w ≠ "" ∧ 0 < trailing_newlines (w_errbuf w))%nat
                   then "" else nl) in
  log_curl_download_error e msg src_url res w = opkg_msg line w
  ∧ trailing_newlines line = 1%nat.
Proof.
  intros Hbuf Hgen line. subst line.
  rewrite <- download_error_text_shape. split; [done|].
  rewrite download_error_text_newlines. case_decide as Hb.
  - by rewrite Hgen.
  - specialize (Hbuf Hb). lia.
Qed.

(** ** Writing a stamp and comparing against it *)

Section StampRoundTrip.

Context (e : env) (file_name : string).

(** The stamp file can be written and read back. *)
Hypothesis can_write : stamp_path file_name ∉ e_wr_denied e.
Hypothesis can_read : reads_well e (stamp_path file_name).

(** What a comparison answers after a stamp has been written. *)
Lemma stamp_written_then_checked s after s2 after2 w :
  NUL ∉ s → NUL ∉ s2 →
  Z.of_nat (length s + length after) < 2 ^ 31 →
  (check_file_stamp e file_name (cstr s after)
     (create_file_stamp e file_name (cstr s2 after2) w).2).1
  = stamp_outcome s2 s after.
Proof.
  intros Hs Hs2 Hlen. rewrite create_file_stamp_ok by done. cbn [snd].
  erewrite check_file_stamp_nofault; [done| |done|done|done].
  cbn. apply lookup_insert_eq.
Qed.

(** The round trip is sound as long as the comparison stays inside the
    candidate: when its length is a multiple of the block size, or when the
    cell the pointer is moved to after the last, short block holds [NUL]. *)
Lemma stamp_roundtrip_in_bounds s after w :
  NUL ∉ s →
  Z.of_nat (length s + length after) < 2 ^ 31 →
  (length s `mod` STAMP_BUF_SIZE = 0)%nat
  ∨ byte_at after (STAMP_BUF_SIZE - 1 - length s `mod` STAMP_BUF_SIZE) = NUL →
  (check_file_stamp e file_name (cstr s after)
     (create_file_stamp e file_name (cstr s after) w).2).1 = 0.
Proof.
  intros Hs Hlen Hin. rewrite stamp_written_then_checked by done.
  unfold stamp_outcome. repeat case_decide; try done; exfalso; tauto.
Qed.

(** C3 (what the code does): a candidate whose length is a multiple of the
    block size, the empty one included, is accepted against every stamp it
    is a prefix of, also when the stamp is longer. *)
Theorem check_file_stamp_accepts_prefix s after s2 after2 w :
  NUL ∉ s → NUL ∉ s2 →
  Z.of_nat (length s + length after) < 2 ^ 31 →
  (length s `mod` STAMP_BUF_SIZE = 0)%nat →
  s `prefix_of` s2 →
  (check_file_stamp e file_name (cstr s after)
     (create_file_stamp e file_name (cstr s2 after2) w).2).1 = 0.
Proof.
  intros Hs Hs2 Hlen Hmod Hpre. rewrite stamp_written_then_checked by done.
  unfold stamp_outcome. by rewrite !decide_True.
Qed.

(** C4 (what the code does): for a stamp whose length is not a multiple of
    the block size, the comparison with the very stamp that was written
    moves the pointer past the terminator after the last block; if the cell
    it lands on does not hold [NUL], the answer is 1, a difference. *)
Theorem stamp_roundtrip_overrun s after w :
  NUL ∉ s →
  Z.of_nat (length s + length after) < 2 ^ 31 →
  (length s `mod` STAMP_BUF_SIZE ≠ 0)%nat →
  byte_at after (STAMP_BUF_SIZE - 1 - length s `mod` STAMP_BUF_SIZE) ≠ NUL →
  (check_file_stamp e file_name (cstr s after)
     (create_file_stamp e file_name (cstr s after) w).2).1 = 1.
Proof.
  intros Hs Hlen Hmod Hbyte. rewrite stamp_written_then_checked by done.
  unfold stamp_outcome. rewrite decide_False by done.
  rewrite decide_False; [done|]. by intros [_ ?].
Qed.

End StampRoundTrip.

(** ** Concrete runs *)

Lemma check_file_stamp_accepts_prefix_witness :
  chars "0123456789" ≠ chars "0123456789abc"
  ∧ (check_file_stamp (plain_env (ok_response None 0) []) "f"
       (cstr (chars "0123456789") [])
       (create_file_stamp (plain_env (ok_response None 0) []) "f"
          (cstr (chars "0123456789abc") []) (start ∅)).2).1 = 0.
Proof.
  split; [done|].
  apply check_file_stamp_accepts_prefix.
  - apply not_elem_of_empty.
  - split; [apply not_elem_of_empty|reflexivity].
  - apply (bool_decide_unpack _). by vm_compute.
  - apply (bool_decide_unpack _). by vm_compute.
  - by vm_compute.
  - reflexivity.
  - by exists (chars "abc").
Defined.

Lemma stamp_roundtrip_overrun_witness :
  (check_file_stamp (plain_env (ok_response None 0) []) "f"
     (cstr (chars "abc") (chars "AAAAAAA"))
     (create_file_stamp (plain_env (ok_response None 0) []) "f"
        (cstr (chars "abc") (chars "AAAAAAA")) (start ∅)).2).1 = 1.
Proof.
  apply stamp_roundtrip_overrun.
  - apply not_elem_of_empty.
  - split; [apply not_elem_of_empty|reflexivity].
  - apply (bool_decide_unpack _). by vm_compute.
  - by vm_compute.
  - by vm_compute.
  - by vm_compute.
Defined.

(** The same stamp and the same candidate, told apart only by the cell
    six places behind the terminator. *)
Example overrun_decides :
  (check_file_stamp (plain_env (ok_response None 0) []) "f"
     (cstr (chars "abc") (replicate 7 NUL)) (start {[ "f.@stamp" := chars "abc" ]})).1 = 0
  ∧ (check_file_stamp (plain_env (ok_response None 0) []) "f"
       (cstr (chars "abc") (replicate 6 NUL ++ chars "A"))
       (start {[ "f.@stamp" := chars "abc" ]})).1 = 1.
Proof. split; by vm_compute. Qed.

Lemma validate_transport_failure_atomic_witness :
  (opkg_validate_cached_file (plain_env failed_response []) "u" "f" cached).1 = -1
  ∧ w_files (opkg_validate_cached_file (plain_env failed_response []) "u" "f" cached).2
    = w_files cached.
Proof.
  destruct (validate_transport_failure_atomic (plain_env failed_response []) "u" "f" cached)
    as (H1 & H2 & _); [by vm_compute|].
  split; [exact H1|exact H2].
Defined.

Lemma stamp_write_failure_is_not_fatal_witness :
  (opkg_validate_cached_file (stamp_locked_env (ok_response (Some "xyz") 1000))
     "u" "f" cached).1
  = (opkg_validate_cached_file
       (allow_write "f.@stamp" (stamp_locked_env (ok_response (Some "xyz") 1000)))
       "u" "f" cached).1.
Proof.
  destruct (stamp_write_failure_is_not_fatal
              (stamp_locked_env (ok_response (Some "xyz") 1000)) "u" "f" cached
              (chars "xyz")) as (H & _).
  - reflexivity.
  - by vm_compute.
  - by vm_compute.
  - apply (bool_decide_unpack _). by vm_compute.
  - exact H.
Defined.

Lemma stale_cache_is_discarded_witness :
  let v := opkg_validate_cached_file (plain_env (ok_response (Some "xyz") 1000) [])
             "u" "f" cached in
  w_files v.2 !! "f.@stamp" = Some (chars "xyz")
  ∧ w_files v.2 !! "f" = Some []
  ∧ v.1 = 1 ∧ opt_resume_from (w_curl v.2) = 0.
Proof.
  destruct (stale_cache_is_discarded (plain_env (ok_response (Some "xyz") 1000) [])
              "u" "f" cached (chars "xyz")) as (_ & H1 & H2).
  - reflexivity.
  - by eexists.
  - by vm_compute.
  - by vm_compute.
  - vm_compute. left. intros [k Hk]. discriminate Hk.
  - destruct H2 as (_ & H2); [apply not_elem_of_empty|].
    destruct H2 as (H2 & H3 & _); [apply not_elem_of_empty|].
    destruct H3 as (H3 & H4); [reflexivity|].
    split; [apply H1, not_elem_of_empty|]. split; [exact H2|]. split; [exact H3|exact H4].
Defined.

(** C5 as stated fails.  With the stamp "abc" and the marker "xyz": the
    stamp file is left as it was when it cannot be opened for writing; for a
    remote size of zero the result is 0, not a fetch from offset 0; and when
    the unlink is refused the cache file keeps its five bytes and the resume
    offset is 5.  With the stamp "0123456789abc" and the marker "0123456789",
    which the comparison takes for equal, nothing is discarded at all. *)
Lemma stale_cache_counterexample :
  let v1 := opkg_validate_cached_file (stamp_locked_env (ok_response (Some "xyz") 1000))
              "u" "f" cached in
  let v2 := opkg_validate_cached_file (plain_env (ok_response (Some "xyz") 0) [])
              "u" "f" cached in
  let v3 := opkg_validate_cached_file (unlink_locked_env (ok_response (Some "xyz") 1000))
              "u" "f" cached in
  let old := start {[ "f" := chars "hello"; "f.@stamp" := chars "0123456789abc" ]} in
  let v4 := opkg_validate_cached_file (plain_env (ok_response (Some "0123456789") 1000) [])
              "u" "f" old in
  etag_of (metadata (stamp_locked_env (ok_response (Some "xyz") 1000)) cached)
  = Some (chars "xyz")
  ∧ w_files cached !! "f.@stamp" = Some (chars "abc")
  ∧ w_files v1.2 !! "f.@stamp" = Some (chars "abc")
  ∧ v2.1 = 0
  ∧ w_files v3.2 !! "f" = Some (chars "hello")
  ∧ opt_resume_from (w_curl v3.2) = 5
  ∧ etag_of (metadata (plain_env (ok_response (Some "0123456789") 1000) []) old)
    = Some (chars "0123456789")
  ∧ w_files v4.2 !! "f" = Some (chars "hello")
  ∧ w_files v4.2 !! "f.@stamp" = Some (chars "0123456789abc")
  ∧ opt_resume_from (w_curl v4.2) = 5.
Proof. cbv zeta. repeat split; by vm_compute. Qed.

Lemma missing_marker_discards_cache_witness :
  let v := opkg_validate_cached_file (plain_env (ok_response None 1000) [])
             "u" "f" cached in
  w_files v.2 !! "f.@stamp" = Some (chars "abc")
  ∧ w_files v.2 !! "f" = Some []
  ∧ v.1 = 1.
Proof.
  destruct (missing_marker_discards_cache (plain_env (ok_response None 1000) [])
              "u" "f" cached) as (H1 & _ & H2).
  - reflexivity.
  - by eexists.
  - by vm_compute.
  - destruct H2 as (_ & H2); [apply not_elem_of_empty|].
    destruct H2 as (H2 & H3 & _); [apply not_elem_of_empty|].
    destruct H3 as (H3 & _); [reflexivity|].
    split; [exact H1|]. split; [exact H2|exact H3].
Defined.

(** C6 as stated fails: without a marker the cache file of five bytes is
    removed, and the resume offset is 0, not 5. *)
Lemma missing_marker_counterexample :
  let v := opkg_validate_cached_file (plain_env (ok_response None 1000) [])
             "u" "f" cached in
  etag_of (metadata (plain_env (ok_response None 1000) []) cached) = None
  ∧ w_files cached !! "f" = Some (chars "hello")
  ∧ w_trace v.2 = [EvPerform (metadata_request idle_handle);
                   EvUnlink "f"; EvFopen "f" "ab" true]
  ∧ w_files v.2 !! "f" = Some []
  ∧ v.1 = 1
  ∧ opt_resume_from (w_curl v.2) = 0.
Proof.
  cbv zeta. repeat split; by vm_compute.
Qed.

Lemma failure_report_newline_witness :
  log_curl_download_error (plain_env failed_response []) "Failed to download" "u" 22
    (with_errbuf "The requested URL returned error: 404" cached)
  = opkg_msg ("Failed to download u: The requested URL returned error: 404" +:+ nl)
      (with_errbuf "The requested URL returned error: 404" cached).
Proof.
  destruct (failure_report_newline (plain_env failed_response []) "Failed to download" "u" 22
              (with_errbuf "The requested URL returned error: 404" cached)) as [H _].
  - intros _. vm_compute. lia.
  - intros H. by vm_compute in H.
  - exact H.
Defined.

(** C8 as stated fails: an error buffer that ends in two newlines yields a
    report that ends in two newlines. *)
Lemma failure_report_counterexample :
  trailing_newlines
    (download_error_text ("Timeout was reached" +:+ nl +:+ nl) "Timeout was reached"
       "Failed to download" "u") = 2%nat
  ∧ w_trace (log_curl_download_error (plain_env failed_response []) "Failed to download" "u" 28
               (with_errbuf ("Timeout was reached" +:+ nl +:+ nl) (start ∅)))
    = [EvMsg ("Failed to download u: Timeout was reached" +:+ nl +:+ nl)].
Proof. split; by vm_compute. Qed.

(** The overrun in the stamp comparison, seen from the validator: a
    complete cache file whose stamp equals the marker is kept when the heap
    cell the comparison lands on holds [NUL], and thrown away when it does
    not. *)
Example fresh_cache_lost_to_overrun :
  let r := ok_response (Some "abc") 5 in
  (opkg_validate_cached_file (plain_env r (replicate 7 NUL)) "u" "f" cached).1 = 0
  ∧ (opkg_validate_cached_file (plain_env r (replicate 6 NUL ++ chars "A")) "u" "f" cached).1 = 1
  ∧ w_files (opkg_validate_cached_file (plain_env r (replicate 6 NUL ++ chars "A"))
               "u" "f" cached).2 !! "f" = Some [].
Proof. repeat split; by vm_compute. Qed.

(** The heap behind the marker is that of the request at hand: a cache the
    validator has just found fresh and complete is thrown away by the next
    validation when the copy of the same marker made then is followed by
    another byte. *)
Example fresh_cache_lost_on_second_validation :
  let e := moving_heap_env (ok_response (Some "abc") 5) in
  let v := opkg_validate_cached_file e "u" "f" cached in
  let v' := opkg_validate_cached_file e "u" "f" v.2 in
  v.1 = 0 ∧ w_files v.2 = w_files cached
  ∧ v'.1 = 1 ∧ w_files v'.2 !! "f" = Some [].
Proof. repeat split; by vm_compute. Qed.

(** The three scenarios of the specification, with the heap cells after the
    marker at [NUL]. *)
Example scenario_no_cache :
  let v := opkg_validate_cached_file (plain_env (ok_response (Some "abc") 1000) [])
             "u" "f" (start ∅) in
  v.1 = 1 ∧ opt_resume_from (w_curl v.2) = 0
  ∧ w_files v.2 !! "f.@stamp" = Some (chars "abc").
Proof. repeat split; by vm_compute. Qed.

Example scenario_complete :
  let v := opkg_validate_cached_file (plain_env (ok_response (Some "abc") 5) [])
             "u" "f" cached in
  v.1 = 0 ∧ w_files v.2 = w_files cached ∧ body_requests (w_trace v.2) = [].
Proof. repeat split; by vm_compute. Qed.

Example scenario_changed :
  let v := opkg_validate_cached_file (plain_env (ok_response (Some "xyz") 1000) [])
             "u" "f" cached in
  v.1 = 1 ∧ opt_resume_from (w_curl v.2) = 0
  ∧ w_files v.2 !! "f" = Some []
  ∧ w_files v.2 !! "f.@stamp" = Some (chars "xyz").
Proof. repeat split; by vm_compute. Qed.

(** * Further properties of the code *)

(** ** What the header callback extracts *)

Lemma strchr_first pre rest c :
  c ∉ pre → NUL ∉ pre → strchr (pre ++ c :: rest) c = Some (length pre).
Proof.
  induction pre as [|x pre IH]; intros Hc Hn; simpl.
  - by rewrite decide_True.
  - apply not_elem_of_cons in Hc as [? ?]. apply not_elem_of_cons in Hn as [? ?].
    rewrite !decide_False by done. by rewrite IH.
Qed.

Lemma strrchr_none p c : c ∉ p → strrchr p c = None.
Proof.
  induction p as [|x p IH]; intros Hc; simpl; [done|].
  apply not_elem_of_cons in Hc as [? ?].
  case_decide; [done|]. rewrite IH by done. by rewrite decide_False.
Qed.

Lemma strrchr_last x post c :
  c ≠ NUL → NUL ∉ x → c ∉ post → strrchr (x ++ c :: post) c = Some (length x).
Proof.
  intros Hc. induction x as [|a x IH]; intros Hn Hp; simpl.
  - rewrite decide_False by done. rewrite strrchr_none by done. by rewrite decide_True.
  - apply not_elem_of_cons in Hn as [? ?].
    rewrite decide_False by done. by rewrite IH.
Qed.

Lemma strchr_at p c : ∀ i, strchr p c = Some i → p !! i = Some c.
Proof.
  induction p as [|x p IH]; intros i; simpl; [done|].
  case_decide as Hx; [by intros [= <-]; subst|].
  case_decide; [done|].
  destruct (strchr p c) as [k|] eqn:Hk; [|done]. intros [= <-]. by apply IH.
Qed.

Lemma strrchr_at p c : ∀ j, strrchr p c = Some j → p !! j = Some c.
Proof.
  induction p as [|x p IH]; intros j; simpl; [done|].
  case_decide; [done|].
  destruct (strrchr p c) as [k|] eqn:Hk.
  - intros [= <-]. by apply IH.
  - case_decide; [|done]. by intros [= <-]; subst.
Qed.

Lemma strchr_le_strrchr p c : ∀ i j,
  strchr p c = Some i → strrchr p c = Some j → (i ≤ j)%nat.
Proof.
  induction p as [|x p IH]; intros i j; simpl; [done|].
  case_decide as Hx; [intros [= <-]; lia|].
  case_decide; [done|].
  destruct (strchr p c) as [k|] eqn:Hk; [|done]. intros [= <-].
  destruct (strrchr p c) as [l|] eqn:Hl.
  - intros [= <-]. specialize (IH k l eq_refl eq_refl). lia.
  - done.
Qed.

Lemma str_starts_with_etag pre rest :
  tolower <$> take 5 pre = chars "etag:" →
  str_starts_with (tolower <$> take 5 (pre ++ rest)) (chars "etag:") = true.
Proof.
  intros Hp. assert (Hl : (5 ≤ length pre)%nat).
  { apply (f_equal length) in Hp. rewrite length_fmap, length_take in Hp.
    change (length (chars "etag:")) with 5%nat in Hp. lia. }
  rewrite take_app_le by done. rewrite Hp.
  unfold str_starts_with. by apply bool_decide_eq_true_2.
Qed.

(** The callback on a line that carries the field name, a first quote, a
    value and a last quote. *)
Lemma header_write_quoted pre tag post out :
  tolower <$> take 5 pre = chars "etag:" →
  NUL ∉ pre → DQUOTE ∉ pre →
  NUL ∉ tag → tag ≠ [] →
  DQUOTE ∉ post →
  header_write (pre ++ DQUOTE :: tag ++ DQUOTE :: post) out = Some tag.
Proof.
  intros Hp Hn Hq Ht Hne Hpost. unfold header_write. cbv zeta.
  rewrite str_starts_with_etag by done.
  rewrite strchr_first by done.
  replace (pre ++ DQUOTE :: tag ++ DQUOTE :: post)
    with ((pre ++ DQUOTE :: tag) ++ DQUOTE :: post) at 1
    by (by rewrite <- (assoc_L (++))).
  rewrite strrchr_last; [|done| |done].
  2:{ rewrite elem_of_app, elem_of_cons. intros [?|[?|?]]; done. }
  rewrite length_app. cbn [length].
  destruct tag as [|a tag']; [done|]. set (tag := a :: tag') in *.
  rewrite decide_True by (subst tag; simpl; lia).
  f_equal. unfold strndup, ptr_add.
  replace (pre ++ DQUOTE :: tag ++ DQUOTE :: post)
    with ((pre ++ [DQUOTE]) ++ tag ++ DQUOTE :: post)
    by (by rewrite <- (assoc_L (++))).
  rewrite drop_app_length'; [|rewrite length_app; simpl; lia].
  assert (Hs : (length tag ≤ strlen (tag ++ DQUOTE :: post))%nat).
  { clear -Ht. induction tag as [|b tag IH]; simpl; [lia|].
    apply not_elem_of_cons in Ht as [? ?].
    rewrite decide_False by done. specialize (IH ltac:(done)). lia. }
  replace (length pre + S (length tag) - S (length pre))%nat with (length tag) by lia.
  rewrite Nat.min_l by done. by rewrite take_app_length.
Qed.

Lemma strchr_none p c : c ∉ p → strchr p c = None.
Proof.
  induction p as [|x p IH]; intros Hc; simpl; [done|].
  apply not_elem_of_cons in Hc as [? ?].
  rewrite decide_False by done. case_decide; [done|]. by rewrite IH.
Qed.

(** Where a quote can be in a line with one quote, or with two in a row. *)
Lemma lone_quote_position (pre post : list ascii) c k :
  c ∉ pre → c ∉ post → (pre ++ c :: post) !! k = Some c → k = length pre.
Proof.
  intros Hpre Hpost Hk.
  destruct (decide (k < length pre)%nat) as [Hlt|Hge].
  - rewrite lookup_app_l in Hk by done. apply list_elem_of_lookup_2 in Hk. done.
  - rewrite lookup_app_r in Hk by lia.
    destruct (k - length pre)%nat as [|m] eqn:E; [lia|].
    cbn in Hk. apply list_elem_of_lookup_2 in Hk. done.
Qed.

Lemma quote_pair_position (pre post : list ascii) c k :
  c ∉ pre → c ∉ post → (pre ++ c :: c :: post) !! k = Some c →
  k = length pre ∨ k = S (length pre).
Proof.
  intros Hpre Hpost Hk.
  destruct (decide (k < length pre)%nat) as [Hlt|Hge].
  - rewrite lookup_app_l in Hk by done. apply list_elem_of_lookup_2 in Hk. done.
  - rewrite lookup_app_r in Hk by lia.
    destruct (k - length pre)%nat as [|[|m]] eqn:E; [lia|lia|].
    cbn in Hk. apply list_elem_of_lookup_2 in Hk. done.
Qed.

(** X8: a header line whose first five bytes spell the field name in any
    mix of cases yields the bytes between its first and its last quote,
    whatever the sink held: a "W/" in front of the quoted value is dropped
    and quotes inside the value are kept. *)
Theorem header_write_extracts_value pre tag post out :
  tolower <$> take 5 pre = chars "etag:" →
  NUL ∉ pre → DQUOTE ∉ pre →
  NUL ∉ tag → tag ≠ [] →
  DQUOTE ∉ post →
  header_write (pre ++ DQUOTE :: tag ++ DQUOTE :: post) out = Some tag.
Proof. apply header_write_quoted. Qed.

(** X9: the sink is left as it was by a line that has no quote, a single
    quote, or an empty quoted value, also when the line carries the field
    name. *)
Theorem header_write_keeps_sink line out :
  DQUOTE ∉ line
  ∨ (∃ pre post, line = pre ++ DQUOTE :: post ∧ (DQUOTE ∉ pre) ∧ (DQUOTE ∉ post))
  ∨ (∃ pre post, line = pre ++ DQUOTE :: DQUOTE :: post ∧ (DQUOTE ∉ pre) ∧ (DQUOTE ∉ post)) →
  header_write line out = out.
Proof.
  intros Hshape. unfold header_write. cbv zeta.
  destruct (str_starts_with _ _); [|done].
  destruct (strchr line DQUOTE) as [i|] eqn:Hi; [|done].
  destruct (strrchr line DQUOTE) as [j|] eqn:Hj; [|done].
  assert (Hij := strchr_le_strrchr _ _ _ _ Hi Hj).
  apply strchr_at in Hi. apply strrchr_at in Hj.
  rewrite decide_False; [done|].
  destruct Hshape as [Hno|[(pre & post & -> & Hpre & Hpost)|(pre & post & -> & Hpre & Hpost)]].
  - apply list_elem_of_lookup_2 in Hi. done.
  - apply lone_quote_position in Hi; [|done..]. apply lone_quote_position in Hj; [|done..]. lia.
  - apply quote_pair_position in Hi; [|done..]. apply quote_pair_position in Hj; [|done..]. lia.
Qed.

(** X10: a marker obtained from a response is never empty and holds no
    [NUL]. *)
Theorem marker_is_well_formed r t : etag_of r = Some t → t ≠ [] ∧ NUL ∉ t.
Proof. intros H. split; [by eapply etag_of_nonempty|by eapply etag_of_nul_free]. Qed.

Lemma etag_of_app c hs1 hs2 len d b :
  etag_of (mkResponse c (hs1 ++ hs2) len d b)
  = foldl (λ out line, header_write line out) (etag_of (mkResponse c hs1 len d b)) hs2.
Proof. unfold etag_of. cbn. apply foldl_app. Qed.

(** X11: when several header lines carry a marker the last of them decides,
    and lines after it that do not carry the field name change nothing. *)
Theorem last_marker_wins c hs pre tag post tail len d b :
  tolower <$> take 5 pre = chars "etag:" →
  NUL ∉ pre → DQUOTE ∉ pre →
  NUL ∉ tag → tag ≠ [] →
  DQUOTE ∉ post →
  Forall (λ line, str_starts_with (tolower <$> take 5 line) (chars "etag:") = false) tail →
  etag_of (mkResponse c (hs ++ (pre ++ DQUOTE :: tag ++ DQUOTE :: post) :: tail) len d b)
  = Some tag.
Proof.
  intros Hp Hn Hq Ht Hne Hpost Htail.
  rewrite etag_of_app. cbn [foldl]. rewrite header_write_quoted by done.
  induction Htail as [|line tail Hline _ IH]; [done|].
  cbn [foldl]. unfold header_write at 2. cbv zeta. by rewrite Hline.
Qed.

(** ** More on the validator *)

(** The verdict of the stamp comparison depends on the files only. *)
Lemma check_file_stamp_fst_files e file_name stamp w w' :
  w_files w = w_files w' →
  (check_file_stamp e file_name stamp w).1 = (check_file_stamp e file_name stamp w').1.
Proof.
  intros Hf. unfold check_file_stamp, file_exists, fopen_rb. rewrite Hf.
  destruct (bool_decide _); cbn [negb]; [|done].
  case_decide; [done|]. by destruct (w_files w' !! stamp_path file_name).
Qed.

(** So does the freshness decision, for a marker whose length is a multiple
    of the block size: the heap cells behind the marker, which differ from
    one request to the next, are not looked at. *)
Lemma check_cache_fst_files e cache_location etag w w' :
  w_files w = w_files w' →
  (∀ t, etag = Some t → (NUL ∉ t) ∧ (length t `mod` STAMP_BUF_SIZE)%nat = 0%nat) →
  (check_cache e cache_location etag w).1 = (check_cache e cache_location etag w').1.
Proof.
  intros Hf Ht. unfold check_cache, file_exists. rewrite Hf.
  destruct (bool_decide _); [|done]. destruct etag as [t|]; [|done].
  destruct (Ht t eq_refl) as [Hnul Hmod].
  assert (H := check_file_stamp_fst_files e cache_location (etag_buffer e w t) w w' Hf).
  unfold etag_buffer in *.
  rewrite (check_file_stamp_in_bounds e cache_location t _
             (e_heap_after e (length (requests (w_trace w')))) w') in H by done.
  destruct (check_file_stamp _ _ _ w) as [d1 w1], (check_file_stamp _ _ _ w') as [d2 w2].
  cbn in H. subst d2. by case_decide.
Qed.

(** A comparison that finds no difference has opened the stamp file and
    logged nothing. *)
Lemma check_file_stamp_zero e file_name stamp w :
  (check_file_stamp e file_name stamp w).1 = 0 →
  (check_file_stamp e file_name stamp w).2
  = emit (EvFopen (stamp_path file_name) "rb" true) w.
Proof.
  unfold check_file_stamp, fopen_rb.
  destruct (file_exists _ _); cbn [negb]; [|done].
  case_decide; [done|].
  destruct (w_files w !! stamp_path file_name); [|done].
  cbv zeta. cbn [fst snd]. intros ->. by rewrite decide_False.
Qed.

Lemma check_cache_fresh e cache_location etag w :
  (check_cache e cache_location etag w).1 = true →
  is_Some (w_files w !! cache_location)
  ∧ (check_cache e cache_location etag w).2
    = emit (EvFopen (stamp_path cache_location) "rb" true) w.
Proof.
  unfold check_cache, file_exists. case_bool_decide as Hex; [|done].
  destruct etag as [t|]; [|done].
  assert (Hz := check_file_stamp_zero e cache_location (etag_buffer e w t) w).
  destruct (check_file_stamp _ _ _ _) as [d w1]. cbn [fst snd] in *.
  case_decide; [|done]. intros _. split; [done|]. by apply Hz.
Qed.

Lemma refresh_stamp_fresh e cache_location etag w :
  refresh_stamp e cache_location etag true w = w.
Proof. unfold refresh_stamp. by destruct etag. Qed.

Lemma metadata_after_complete e w w' :
  w_curl w' = body_transfer (w_curl w) → metadata e w' = metadata e w.
Proof. intros H. unfold metadata. by rewrite H. Qed.

(** The validator on a cache it judges fresh. *)
Lemma validate_fresh e src cache_location w :
  r_code (metadata e w) = 0 →
  cache_location ∉ e_wr_denied e →
  (check_cache e cache_location (etag_of (metadata e w)) (after_metadata e w)).1 = true →
  let v := opkg_validate_cached_file e src cache_location w in
  v.1 = (if decide (file_length w cache_location < r_length (metadata e w)) then 1 else 0)
  ∧ w_files v.2 = w_files w
  ∧ w_trace v.2 = w_trace w ++ [EvPerform (metadata_request (w_curl w));
                                EvFopen (stamp_path cache_location) "rb" true;
                                EvFopen cache_location "ab" true].
Proof.
  intros Hr Hd Hm. cbv zeta.
  assert (HL := measured_length_cases e cache_location w). rewrite Hm in HL.
  destruct (check_cache_fresh _ _ _ _ Hm) as [[content Hc] Hw2].
  change (w_files w !! cache_location = Some content) in Hc.
  assert (H3 : before_reopen e cache_location w
               = emit (EvFopen (stamp_path cache_location) "rb" true) (after_metadata e w)).
  { unfold before_reopen. by rewrite Hm, refresh_stamp_fresh. }
  rewrite validate_reopened by done. cbv zeta. rewrite HL, H3.
  cbn [w_files emit after_metadata]. rewrite Hc. cbn [default from_option id].
  rewrite insert_id by done.
  case_decide; cbn; (split; [done|]); (split; [done|]); by rewrite <- !(assoc_L (++)).
Qed.

(** X12: a cache that the validator judges fresh is left alone: no file
    changes, nothing is removed and no stamp is written; all it does is the
    request and the opening of the two files.  If the result is 0 and the
    length of the marker is a multiple of the block size, validating once
    more, with the same answer from the remote side and whatever the heap
    then holds behind the new copy of the marker, gives 0 again and still
    changes nothing. *)
Theorem fresh_cache_is_left_alone e src cache_location w :
  r_code (metadata e w) = 0 →
  cache_location ∉ e_wr_denied e →
  (check_cache e cache_location (etag_of (metadata e w)) (after_metadata e w)).1 = true →
  let v := opkg_validate_cached_file e src cache_location w in
  let v' := opkg_validate_cached_file e src cache_location v.2 in
  w_files v.2 = w_files w
  ∧ w_trace v.2 = w_trace w ++ [EvPerform (metadata_request (w_curl w));
                                EvFopen (stamp_path cache_location) "rb" true;
                                EvFopen cache_location "ab" true]
  ∧ (v.1 = 0 →
     (∀ t, etag_of (metadata e w) = Some t → (length t `mod` STAMP_BUF_SIZE)%nat = 0%nat) →
     v'.1 = 0 ∧ w_files v'.2 = w_files w).
Proof.
  intros Hr Hd Hm. cbv zeta.
  destruct (validate_fresh e src cache_location w Hr Hd Hm) as (H1 & H2 & H3).
  cbv zeta in *.
  split; [done|]. split; [done|]. intros H0 Hal.
  set (v := opkg_validate_cached_file e src cache_location w) in *.
  assert (Hh : w_curl v.2 = body_transfer (w_curl w)).
  { destruct (validate_cases e src cache_location w) as [[E H]|[[E H]|[E H]]];
      fold v in E, H; [done|done|]. rewrite H0 in E. done. }
  assert (Hmeta := metadata_after_complete e w v.2 Hh).
  assert (Hm' : (check_cache e cache_location (etag_of (metadata e v.2))
                   (after_metadata e v.2)).1 = true).
  { rewrite Hmeta, <- Hm. apply check_cache_fst_files; [by cbn|].
    intros t Ht. split; [by eapply etag_of_nul_free|by apply Hal]. }
  destruct (validate_fresh e src cache_location v.2) as (H1' & H2' & _);
    [by rewrite Hmeta|done|done|].
  cbv zeta in *. split; [|congruence].
  rewrite H1'. rewrite Hmeta. unfold file_length. rewrite H2.
  rewrite H1 in H0. unfold file_length in H0. done.
Qed.

Lemma check_cache_absent e cache_location etag w :
  w_files w !! cache_location = None →
  check_cache e cache_location etag w = (false, w).
Proof.
  intros H. unfold check_cache, file_exists.
  rewrite bool_decide_eq_false_2; [done|]. rewrite H. by intros [? ?].
Qed.

(** X13: with no cache file, and the request succeeded and the cache file
    openable, the validator leaves an empty cache file; the stamp file holds
    the marker if one was obtained and the stamp file can be written, and is
    left as it was if there is no marker; for a remote size above zero the
    result is 1 with resume offset 0. *)
Theorem absent_cache_starts_empty e src cache_location w :
  r_code (metadata e w) = 0 →
  w_files w !! cache_location = None →
  cache_location ∉ e_wr_denied e →
  let v := opkg_validate_cached_file e src cache_location w in
  w_files v.2 !! cache_location = Some []
  ∧ (0 < r_length (metadata e w) → v.1 = 1 ∧ opt_resume_from (w_curl v.2) = 0)
  ∧ (∀ t, etag_of (metadata e w) = Some t →
          stamp_path cache_location ∉ e_wr_denied e →
          w_files v.2 !! stamp_path cache_location = Some t)
  ∧ (etag_of (metadata e w) = None →
     w_files v.2 !! stamp_path cache_location = w_files w !! stamp_path cache_location).
Proof.
  intros Hr Habs Hd. cbv zeta.
  assert (Hne := stamp_path_neq cache_location).
  assert (H3 : before_reopen e cache_location w
               = refresh_stamp e cache_location (etag_of (metadata e w)) false
                   (after_metadata e w)).
  { unfold before_reopen. by rewrite check_cache_absent. }
  assert (Hnone : w_files (before_reopen e cache_location w) !! cache_location = None).
  { rewrite H3, refresh_stamp_files by done. done. }
  destruct (validate_from_scratch e src cache_location w Hr Hnone) as (Hoth & _ & Hok).
  destruct (Hok Hd) as (H1 & H2 & H4).
  split; [done|]. split; [|split].
  - intros HR. rewrite H2. rewrite decide_True by done. auto.
  - intros t Het Hs. rewrite Hoth by done. rewrite H3, Het.
    rewrite refresh_stamp_written; [|done|by eapply etag_of_nul_free].
    cbn. apply lookup_insert_eq.
  - intros Het. rewrite Hoth by done. by rewrite H3, Het.
Qed.

(** The cache file after the freshness decision and the stamp refresh. *)
Lemma before_reopen_cache e cache_location w :
  w_files (before_reopen e cache_location w) !! cache_location
  = if (check_cache e cache_location (etag_of (metadata e w)) (after_metadata e w)).1
    then w_files w !! cache_location
    else if decide (cache_location ∈ e_unlink_denied e)
         then w_files w !! cache_location
         else None.
Proof.
  unfold before_reopen. rewrite refresh_stamp_files by apply stamp_path_neq.
  rewrite check_cache_files.
  destruct (check_cache _ _ _ _).1; [done|].
  case_decide; [done|]. apply lookup_delete_eq.
Qed.

Lemma before_reopen_others e cache_location w path :
  path ≠ cache_location → path ≠ stamp_path cache_location →
  w_files (before_reopen e cache_location w) !! path = w_files w !! path.
Proof.
  intros H1 H2. unfold before_reopen. rewrite refresh_stamp_files by done.
  rewrite check_cache_files.
  destruct (check_cache _ _ _ _).1; [done|].
  case_decide; [done|]. by rewrite lookup_delete_ne.
Qed.

(** X14: whatever the environment, the validator asks for no body, touches
    no file but the cache file and its stamp, and never adds to the cache
    file: afterwards the cache file is as it was, empty, or gone. *)
Theorem validate_only_inspects e src cache_location w :
  let v := opkg_validate_cached_file e src cache_location w in
  body_requests (w_trace v.2) = body_requests (w_trace w)
  ∧ (∀ path, path ≠ cache_location → path ≠ stamp_path cache_location →
             w_files v.2 !! path = w_files w !! path)
  ∧ (w_files v.2 !! cache_location = w_files w !! cache_location
     ∨ w_files v.2 !! cache_location = Some []
     ∨ w_files v.2 !! cache_location = None).
Proof.
  cbv zeta. split; [apply validate_requests|].
  destruct (decide (r_code (metadata e w) = 0)) as [Hr|Hr]; cycle 1.
  { rewrite validate_failed by done. cbn. auto. }
  assert (Hc := before_reopen_cache e cache_location w).
  assert (Ho := before_reopen_others e cache_location w).
  destruct (decide (cache_location ∈ e_wr_denied e)) as [Hd|Hd].
  { rewrite validate_no_open by done. cbn. split; [done|].
    rewrite Hc. destruct (check_cache _ _ _ _).1; [auto|]. case_decide; auto. }
  rewrite validate_reopened by done. cbv zeta.
  assert (Hfiles : ∀ (ret : Z) h,
    let w4 := (ret, with_curl h (emit (EvFopen cache_location "ab" true)
                 (with_files (<[cache_location:=default []
                      (w_files (before_reopen e cache_location w) !! cache_location)]>
                    (w_files (before_reopen e cache_location w)))
                    (before_reopen e cache_location w)))) in
    (∀ path, path ≠ cache_location → path ≠ stamp_path cache_location →
             w_files w4.2 !! path = w_files w !! path)
    ∧ (w_files w4.2 !! cache_location = w_files w !! cache_location
       ∨ w_files w4.2 !! cache_location = Some []
       ∨ w_files w4.2 !! cache_location = None)).
  { intros ret h. cbn. split.
    - intros path H1 H2. rewrite lookup_insert_ne by done. by apply Ho.
    - rewrite lookup_insert_eq, Hc.
      destruct (check_cache _ _ _ _).1; [|case_decide; [|auto]];
        destruct (w_files w !! cache_location); cbn; auto. }
  destruct (decide (_ < _)); apply Hfiles.
Qed.

(** ** The body transfer *)

(** The transfer with a handle in body-transfer state, spelled out: the
    request made, the file written, the result. *)
Lemma transfer_unfold e src dest w :
  opt_nobody (w_curl w) = false →
  opt_writefunction (w_curl w) = None →
  dest ∉ e_wr_denied e →
  let h := set_writedata (Some dest) (w_curl w) in
  let r := e_server e h in
  let kept := default [] (w_files w !! dest) in
  let w' := mkWorld (<[dest := kept ++ r_body r]> (w_files w)) h
              (if decide (r_code r = 0) then "" else r_detail r) (r_length r)
              (w_trace w ++ [EvFopen dest "ab" true; EvPerform h; EvFwrite dest (r_body r)]) in
  transfer e src dest w
  = if decide (r_code r = 0) then (0, w')
    else (-1, opkg_msg (download_error_text (r_detail r) (e_strerror e (r_code r))
                          "Failed to download" src) w').
Proof.
  intros Hnb Hwf Hd. cbv zeta. unfold transfer, fopen_ab.
  rewrite decide_False by done.
  unfold perform_curl_request, curl_easy_perform, log_curl_download_error, fwrite.
  destruct w as [f [u wf hf wh hd nb rf wd] b n tr]. cbn in Hnb, Hwf. subst nb wf.
  cbn. rewrite lookup_insert_eq. cbn. rewrite insert_insert_eq.
  repeat case_decide; try done;
    unfold opkg_msg, with_length, emit, with_files, with_errbuf, with_curl, setopt; cbn;
    rewrite <- ?(assoc_L (++)); reflexivity.
Qed.

Lemma body_transfer_state h :
  body_transfer h = h → opt_nobody h = false ∧ opt_writefunction h = None.
Proof. intros <-. done. Qed.

Lemma last_opkg_msg line w : last (w_trace (opkg_msg line w)) = Some (EvMsg line).
Proof. cbn. apply last_snoc. Qed.

(** The download without the cache, spelled out. *)
Lemma backend_without_cache e src dest w :
  body_transfer (w_curl w) = w_curl w →
  dest ∉ e_wr_denied e →
  let h := set_writedata (Some dest) (set_url src (w_curl w)) in
  let r := e_server e h in
  let d := opkg_download_backend e src dest false w in
  let kept := if decide (dest ∈ e_unlink_denied e)
              then default [] (w_files w !! dest) else [] in
  d.1 = (if decide (r_code r = 0) then 0 else -1)
  ∧ w_files d.2 !! dest = Some (kept ++ r_body r)
  ∧ (∀ path, path ≠ dest → w_files d.2 !! path = w_files w !! path)
  ∧ body_requests (w_trace d.2) = body_requests (w_trace w) ++ [h]
  ∧ opt_resume_from h = opt_resume_from (w_curl w)
  ∧ (r_code r ≠ 0 →
     last (w_trace d.2)
     = Some (EvMsg (download_error_text (r_detail r) (e_strerror e (r_code r))
                      "Failed to download" src))).
Proof.
  intros Hb Hd. cbv zeta. unfold opkg_download_backend. cbv zeta.
  destruct (body_transfer_state _ Hb) as [Hnb Hwf].
  assert (Hu : ∃ f, unlink e dest (setopt (set_url src) w)
                    = emit (EvUnlink dest) (with_files f (setopt (set_url src) w))
                  ∧ default [] (f !! dest)
                    = (if decide (dest ∈ e_unlink_denied e)
                       then default [] (w_files w !! dest) else [])
                  ∧ ∀ path, path ≠ dest → f !! path = w_files w !! path).
  { unfold unlink. case_decide.
    - exists (w_files w). split; [|done]. by destruct w.
    - exists (delete dest (w_files w)). split; [done|].
      split; [by rewrite lookup_delete_eq|]. intros path Hp. by rewrite lookup_delete_ne. }
  destruct Hu as (f & -> & Hkept & Hoth).
  rewrite transfer_unfold; [|done..]. cbv zeta.
  change (w_curl (emit (EvUnlink dest) (with_files f (setopt (set_url src) w))))
    with (set_url src (w_curl w)).
  set (h := set_writedata (Some dest) (set_url src (w_curl w))).
  assert (Hreq : body_requests
            ((w_trace w ++ [EvUnlink dest]) ++
             [EvFopen dest "ab" true; EvPerform h; EvFwrite dest (r_body (e_server e h))])
          = body_requests (w_trace w) ++ [h]).
  { assert (Hnbh : opt_nobody h = false) by exact Hnb. clearbody h.
    unfold body_requests. rewrite !omap_app. cbn. by rewrite Hnbh, app_nil_r. }
  destruct (decide (r_code (e_server e h) = 0));
    cbn [fst snd w_files w_trace opkg_msg emit with_files setopt with_curl];
    rewrite lookup_insert_eq, Hkept.
  - repeat split; try done.
    intros path Hp. rewrite lookup_insert_ne by done. by apply Hoth.
  - repeat split; try done.
    + intros path Hp. rewrite lookup_insert_ne by done. by apply Hoth.
    + rewrite <- Hreq. by apply body_requests_snoc.
    + intros _. apply last_snoc.
Qed.


Lemma validate_needs_transfer e src dest w :
  (opkg_validate_cached_file e src dest w).1 = 1 →
  r_code (metadata e w) = 0 ∧ (dest ∉ e_wr_denied e)
  ∧ w_curl (opkg_validate_cached_file e src dest w).2
    = body_transfer (set_resume_from (file_length (opkg_validate_cached_file e src dest w).2 dest)
                       (w_curl w)).
Proof.
  intros H1.
  destruct (decide (r_code (metadata e w) = 0)) as [Hr|Hr]; cycle 1.
  { rewrite validate_failed in H1 by done. done. }
  destruct (decide (dest ∈ e_wr_denied e)) as [Hd|Hd].
  { rewrite validate_no_open in H1 by done. done. }
  split; [done|]. split; [done|].
  destruct (validate_cases e src dest w) as [[E H]|[[E H]|[E H]]]; [congruence|congruence|done].
Qed.

(** The download with the cache when the validator asks for a transfer,
    spelled out. *)
Lemma backend_resume e src dest w :
  body_transfer (w_curl w) = w_curl w →
  let v := opkg_validate_cached_file e src dest (setopt (set_url src) w) in
  v.1 = 1 →
  let h := set_writedata (Some dest) (w_curl v.2) in
  let r := e_server e h in
  let d := opkg_download_backend e src dest true w in
  opt_resume_from h = file_length v.2 dest
  ∧ opt_url h = src
  ∧ d.1 = (if decide (r_code r = 0) then 0 else -1)
  ∧ w_files d.2 !! dest = Some (default [] (w_files v.2 !! dest) ++ r_body r)
  ∧ body_requests (w_trace d.2) = body_requests (w_trace w) ++ [h]
  ∧ w_curl d.2 = h.
Proof.
  intros Hb v H1. cbv zeta.
  destruct (validate_needs_transfer _ _ _ _ H1) as (Hr & Hd & Hh). fold v in Hh.
  assert (Hq := validate_requests e src dest (setopt (set_url src) w)). fold v in Hq.
  unfold opkg_download_backend. cbv zeta. fold v.
  destruct v as [ret w1] eqn:Ev. cbn [fst snd] in *. subst ret.
  rewrite decide_False by lia.
  rewrite transfer_unfold; [|by rewrite Hh..|done]. cbv zeta.
  set (h := set_writedata (Some dest) (w_curl w1)).
  assert (Hnb : opt_nobody h = false) by (subst h; by rewrite Hh).
  split; [subst h; by rewrite Hh|]. split; [subst h; by rewrite Hh|].
  assert (Hreq : body_requests
            (w_trace w1 ++
             [EvFopen dest "ab" true; EvPerform h; EvFwrite dest (r_body (e_server e h))])
          = body_requests (w_trace w) ++ [h]).
  { clearbody h. unfold body_requests in *. rewrite !omap_app, Hq. cbn.
    by rewrite Hnb. }
  case_decide; cbn [fst snd w_files w_trace opkg_msg emit with_files];
    rewrite lookup_insert_eq.
  - done.
  - repeat split; try done. rewrite <- Hreq. by apply body_requests_snoc.
Qed.

(** X16: a download with the cache for which the validator asks for a
    transfer, on a handle in body-transfer state: one body request is made,
    its resume offset is the length of the cache file as the validator left
    it, and the body delivered is appended to that file, also when the
    transfer fails; the result is 0 or, on failure, -1. *)
Theorem download_resumes_cache e src dest w :
  body_transfer (w_curl w) = w_curl w →
  let v := opkg_validate_cached_file e src dest (setopt (set_url src) w) in
  v.1 = 1 →
  let h := set_writedata (Some dest) (w_curl v.2) in
  let r := e_server e h in
  let d := opkg_download_backend e src dest true w in
  opt_resume_from h = file_length v.2 dest
  ∧ opt_url h = src
  ∧ d.1 = (if decide (r_code r = 0) then 0 else -1)
  ∧ w_files d.2 !! dest = Some (default [] (w_files v.2 !! dest) ++ r_body r)
  ∧ body_requests (w_trace d.2) = body_requests (w_trace w) ++ [h].
Proof.
  intros Hb v H1. cbv zeta.
  destruct (backend_resume e src dest w Hb H1) as (?&?&?&?&?&?). done.
Qed.

(** X17: the resume offset outlives the download it was set for: after a
    download with the cache that resumed a file, a download without the
    cache on the same handle makes its request with the resume offset still
    at the length the first file had, although its own destination, when the
    unlink took effect, starts empty and holds afterwards the body delivered
    and nothing else. *)
Theorem resume_offset_outlives_download e src dest src' dest' w :
  body_transfer (w_curl w) = w_curl w →
  let v := opkg_validate_cached_file e src dest (setopt (set_url src) w) in
  v.1 = 1 →
  dest' ∉ e_wr_denied e →
  let d := opkg_download_backend e src dest true w in
  let d' := opkg_download_backend e src' dest' false d.2 in
  ∃ h', body_requests (w_trace d'.2) = body_requests (w_trace d.2) ++ [h']
        ∧ opt_url h' = src'
        ∧ opt_writedata h' = Some dest'
        ∧ opt_resume_from h' = file_length v.2 dest
        ∧ (dest' ∉ e_unlink_denied e →
           w_files d'.2 !! dest' = Some (r_body (e_server e h'))).
Proof.
  intros Hb v H1 Hd'. cbv zeta.
  destruct (backend_resume e src dest w Hb H1) as (Hoff & _ & _ & _ & _ & Hh).
  cbv zeta in Hoff, Hh. fold v in Hoff, Hh.
  destruct (validate_needs_transfer _ _ _ _ H1) as (_ & _ & Hv). fold v in Hv.
  set (d := opkg_download_backend e src dest true w) in *.
  assert (Hb' : body_transfer (w_curl d.2) = w_curl d.2) by (by rewrite Hh, Hv).
  destruct (backend_without_cache e src' dest' d.2 Hb' Hd') as (_ & Hf & _ & Hq & Hr & _).
  cbv zeta in Hf, Hq, Hr.
  eexists. split; [exact Hq|]. split; [done|]. split; [done|]. split.
  - rewrite Hr, Hh. exact Hoff.
  - intros Hu. rewrite decide_False in Hf by done. exact Hf.
Qed.

Lemma transfer_result e src dest w :
  let d := transfer e src dest w in
  (d.1 = 0 ∨ d.1 = -1) ∧ (d.1 = -1 → ∃ line, last (w_trace d.2) = Some (EvMsg line)).
Proof.
  cbv zeta. unfold transfer.
  destruct (fopen_ab e dest w) as [[] w1].
  - destruct (perform_curl_request _ _ _) as [[res et] w2].
    case_decide; cbn [fst snd]; (split; [auto|]); [done|].
    intros _. eexists. apply last_opkg_msg.
  - cbn [fst snd]. split; [auto|]. intros _. eexists. apply last_opkg_msg.
Qed.

Lemma validate_failure_logged e src cache_location w :
  (opkg_validate_cached_file e src cache_location w).1 = -1 →
  ∃ line, last (w_trace (opkg_validate_cached_file e src cache_location w).2)
          = Some (EvMsg line).
Proof.
  destruct (decide (r_code (metadata e w) = 0)) as [Hr|Hr]; cycle 1.
  { rewrite validate_failed by done. intros _. eexists. cbn. apply last_snoc. }
  destruct (decide (cache_location ∈ e_wr_denied e)) as [Hd|Hd].
  { rewrite validate_no_open by done. intros _. eexists. cbn. apply last_snoc. }
  rewrite validate_reopened by done. cbv zeta. by case_decide.
Qed.

(** With the handle in hand the download returns 0 or -1, and a -1 comes
    with an error line as the last thing done. *)
Lemma backend_result e src dest use_cache w :
  let d := opkg_download_backend e src dest use_cache w in
  (d.1 = 0 ∨ d.1 = -1) ∧ (d.1 = -1 → ∃ line, last (w_trace d.2) = Some (EvMsg line)).
Proof.
  cbv zeta. unfold opkg_download_backend. cbv zeta.
  destruct use_cache; [|apply transfer_result].
  assert (Hc := validate_cases e src dest (setopt (set_url src) w)).
  assert (Hl := validate_failure_logged e src dest (setopt (set_url src) w)).
  destruct (opkg_validate_cached_file _ _ _ _) as [ret w1]. cbn [fst snd] in *.
  case_decide; [|apply transfer_result].
  cbn [fst snd]. split; [|done].
  destruct Hc as [[-> _]|[[-> _]|[-> _]]]; [auto|auto|lia].
Qed.

(** Entered with a handle at hand, the whole function is the part after
    the call of opkg_curl_init. *)
Lemma entry_with_handle e src dest use_cache w :
  Entry.opkg_download_backend e src dest use_cache true w
  = opkg_download_backend e src dest use_cache w.
Proof. done. Qed.

(** X18: the download entry point, the call of opkg_curl_init included,
    returns 0 or -1 and nothing else.  A -1 has one of two origins: no
    handle was at hand and [curl_easy_init] gave none, in which case nothing
    at all has been done, no error line logged either; or the last thing
    done was to log an error line. *)
Theorem download_result e src dest use_cache have w :
  let d := Entry.opkg_download_backend e src dest use_cache have w in
  (d.1 = 0 ∨ d.1 = -1)
  ∧ (d.1 = -1 →
     (have = false ∧ e_curl_easy_init e = false ∧ d.2 = w)
     ∨ ∃ line, last (w_trace d.2) = Some (EvMsg line)).
Proof.
  cbv zeta. unfold Entry.opkg_download_backend, Entry.opkg_curl_init, Entry.curl_easy_init.
  destruct have; [|destruct (e_curl_easy_init e)]; cbn [fmap option_fmap option_map].
  - destruct (backend_result e src dest use_cache w) as [H1 H2]. auto.
  - destruct (backend_result e src dest use_cache
                (with_curl (mkCURL "" None None None false false 0 None) w)) as [H1 H2].
    auto.
  - cbn. auto.
Qed.

(** ** More on the stamp store *)

(** A device error right at a block boundary, before the candidate has
    ended, ends the comparison with -1. *)
Lemma stamp_loop_read_failure k : ∀ fuel p rest s' after,
  (k < fuel)%nat →
  length p = (STAMP_BUF_SIZE * k)%nat →
  rest ≠ [] → s' ≠ [] →
  NUL ∉ p ++ s' →
  Z.of_nat (length (p ++ s')) < 2 ^ 31 →
  stamp_loop fuel (mkFILE (p ++ rest) (Some (length p)) false) (cstr (p ++ s') after)
  = Some (-1).
Proof.
  unfold STAMP_BUF_SIZE.
  induction k as [|k IH]; intros fuel p rest s' after Hfuel Hp Hrest Hs' Hnul Hlen;
    (destruct fuel as [|fuel]; [lia|]).
  - destruct p; [|done]. destruct s' as [|a s']; [done|]. cbn [app] in *.
    assert (Ha : a ≠ NUL) by (intros ->; apply Hnul; left).
    cbn [stamp_loop]. rewrite decide_False by done.
    unfold fread. cbn [f_fault f_rest f_error length]. rewrite Nat.min_0_r, take_0.
    rewrite decide_True; [done|]. split; [done|]. cbn.
    apply bool_decide_eq_true_2. unfold STAMP_BUF_SIZE. destruct rest; [done|]. simpl. lia.
  - assert (Hne : p ++ s' ≠ []) by (destruct p; [simpl in Hp; lia|done]).
    destruct (p ++ s') as [|a q] eqn:Eq; [done|].
    assert (Ha : a ≠ NUL) by (intros ->; apply Hnul; left).
    cbn [stamp_loop]. rewrite decide_False by done. rewrite <- Eq in *. clear a q Eq Ha Hne.
    unfold fread. cbn [f_fault f_rest f_error].
    unfold STAMP_BUF_SIZE. rewrite Nat.min_l by lia.
    rewrite take_app_le, drop_app_le by lia.
    rewrite (decide_False (P := _ ∧ _)); cycle 1.
    { rewrite length_take. intros [? _]. lia. }
    assert (Hd : block_diff (take 10 p) (cstr (p ++ s') after) = 0).
    { apply block_diff_cstr; [done|done|rewrite length_take; unfold STAMP_BUF_SIZE; lia|].
      unfold STAMP_BUF_SIZE. rewrite take_app_le by lia. split; [done|].
      rewrite length_take. lia. }
    rewrite Hd, decide_True by done.
    rewrite ptr_add_cstr by (rewrite length_app; lia).
    rewrite drop_app_le by lia.
    replace (length p - 10)%nat with (length (drop 10 p)) by (rewrite length_drop; lia).
    replace (false || bool_decide (length p < 10 ∧ length p < length (p ++ rest))%nat)
      with false; cycle 1.
    { symmetry. apply orb_false_intro; [done|]. apply bool_decide_eq_false_2. lia. }
    apply IH; [lia|rewrite length_drop; lia|done|done| |].
    + intros Hin. apply Hnul. rewrite <- (take_drop 10 p), <- (assoc_L (++)).
      apply elem_of_app. by right.
    + rewrite length_app, length_drop. rewrite length_app in Hlen. lia.
Qed.

(** X1: on a stamp file that can be read without failure, check_file_stamp
    answers 0 or 1, and 0 exactly in two cases: the candidate's length is a
    multiple of the block size and the candidate is a prefix of the file, or
    it is not such a multiple, the file equals the candidate, and the cell
    the pointer is moved to after the last block holds [NUL]. *)
Theorem check_file_stamp_verdict e file_name s after content w :
  w_files w !! stamp_path file_name = Some content →
  reads_well e (stamp_path file_name) →
  NUL ∉ s →
  Z.of_nat (length s + length after) < 2 ^ 31 →
  let d := (check_file_stamp e file_name (cstr s after) w).1 in
  (d = 0 ∨ d = 1)
  ∧ (d = 0 ↔
     ((length s `mod` STAMP_BUF_SIZE)%nat = 0%nat ∧ s `prefix_of` content)
     ∨ ((length s `mod` STAMP_BUF_SIZE)%nat ≠ 0%nat ∧ content = s
        ∧ byte_at after (STAMP_BUF_SIZE - 1 - length s `mod` STAMP_BUF_SIZE) = NUL)).
Proof.
  intros Hf Hr Hnul Hlen. cbv zeta.
  rewrite (check_file_stamp_nofault e file_name s after content w) by done.
  cbn [fst]. unfold stamp_outcome.
  repeat case_decide; (split; [auto|]); split; try done; try tauto; intros _; tauto.
Qed.

(** X2: whatever the reads do, failures included, check_file_stamp answers
    0 only if the candidate is a prefix of the stamp file: a candidate that
    differs from the file in some byte, or is longer than the file, is never
    accepted. *)
Theorem check_file_stamp_sound e file_name s after content w :
  w_files w !! stamp_path file_name = Some content →
  NUL ∉ s →
  Z.of_nat (length s) < 2 ^ 31 →
  (check_file_stamp e file_name (cstr s after) w).1 = 0 →
  s `prefix_of` content.
Proof.
  intros Hf Hnul Hlen. unfold check_file_stamp, file_exists, fopen_rb. rewrite Hf.
  rewrite bool_decide_eq_true_2 by by eexists. cbn [negb].
  case_decide; [done|]. cbv zeta. cbn [fst].
  destruct (stamp_loop_total (S (length (cstr s after)))
              (mkFILE content (e_rd_fault e !! stamp_path file_name) false)
              (cstr s after) ltac:(lia)) as [z Hz].
  rewrite Hz. cbn [default from_option id]. intros ->.
  by apply stamp_loop_sound in Hz.
Qed.

(** X3: for a stamp whose length is a multiple of the block size, the empty
    stamp included, writing it and comparing against it answers 0, whatever
    lies behind the two strings in memory. *)
Theorem stamp_roundtrip_block_aligned e file_name s after after' w :
  stamp_path file_name ∉ e_wr_denied e →
  reads_well e (stamp_path file_name) →
  NUL ∉ s →
  Z.of_nat (length s + length after) < 2 ^ 31 →
  (length s `mod` STAMP_BUF_SIZE)%nat = 0%nat →
  (check_file_stamp e file_name (cstr s after)
     (create_file_stamp e file_name (cstr s after') w).2).1 = 0.
Proof.
  intros Hw Hr Hnul Hlen Hmod.
  rewrite (stamp_written_then_checked e file_name Hw Hr) by done.
  unfold stamp_outcome. by rewrite !decide_True.
Qed.

(** X4: check_file_stamp only reads: whatever it answers, the files, the
    handle, the error buffer and the size of the last request are as before
    and no request has been made. *)
Theorem check_file_stamp_only_reads e file_name stamp w :
  let w' := (check_file_stamp e file_name stamp w).2 in
  w_files w' = w_files w
  ∧ w_curl w' = w_curl w
  ∧ w_errbuf w' = w_errbuf w
  ∧ w_length w' = w_length w
  ∧ body_requests (w_trace w') = body_requests (w_trace w).
Proof.
  cbv zeta. destruct (check_file_stamp_frame e file_name stamp w) as [(?&?&?&?) ?]. done.
Qed.

(** X5: the error results of check_file_stamp: for a stamp file that does
    not exist it answers -1 and does nothing else, not even log; for one
    that exists but cannot be opened it answers -1 and logs that; for one
    that reads without failure it never answers -1. *)
Theorem check_file_stamp_errors e file_name s after w :
  NUL ∉ s →
  Z.of_nat (length s + length after) < 2 ^ 31 →
  let c := check_file_stamp e file_name (cstr s after) w in
  (w_files w !! stamp_path file_name = None → c = (-1, w))
  ∧ (is_Some (w_files w !! stamp_path file_name) →
     stamp_path file_name ∈ e_rd_denied e →
     c.1 = -1
     ∧ w_trace c.2 = w_trace w ++ [EvFopen (stamp_path file_name) "rb" false;
                                   EvMsg ("Failed to open file " +:+ stamp_path file_name +:+ nl)])
  ∧ (is_Some (w_files w !! stamp_path file_name) →
     reads_well e (stamp_path file_name) →
     c.1 ≠ -1
     ∧ w_trace c.2 = w_trace w ++ [EvFopen (stamp_path file_name) "rb" true]).
Proof.
  intros Hnul Hlen. cbv zeta. split; [apply check_file_stamp_absent|]. split.
  - intros Hex Hd. unfold check_file_stamp, file_exists, fopen_rb.
    rewrite bool_decide_eq_true_2 by done. cbn [negb]. rewrite decide_True by done.
    cbn. by rewrite <- (assoc_L (++)).
  - intros [content Hf] Hr.
    rewrite (check_file_stamp_nofault e file_name s after content w) by done.
    cbn. split; [|done]. unfold stamp_outcome. repeat case_decide; done.
Qed.

(** X6: a device error at a block boundary, met while both the file and the
    candidate go on and all blocks before it agreed, makes check_file_stamp
    answer -1, with the read failure as the last log line. *)
Theorem check_file_stamp_read_failure e file_name p rest s' after w :
  w_files w !! stamp_path file_name = Some (p ++ rest) →
  stamp_path file_name ∉ e_rd_denied e →
  e_rd_fault e !! stamp_path file_name = Some (length p) →
  (length p `mod` STAMP_BUF_SIZE)%nat = 0%nat →
  rest ≠ [] → s' ≠ [] →
  NUL ∉ p ++ s' →
  Z.of_nat (length (p ++ s')) < 2 ^ 31 →
  let c := check_file_stamp e file_name (cstr (p ++ s') after) w in
  c.1 = -1
  ∧ last (w_trace c.2)
    = Some (EvMsg ("Failed to read from file " +:+ stamp_path file_name +:+ nl)).
Proof.
  intros Hf Hrd Hfault Hmod Hrest Hs' Hnul Hlen. cbv zeta.
  unfold check_file_stamp, file_exists, fopen_rb. rewrite Hf.
  rewrite bool_decide_eq_true_2 by by eexists. cbn [negb].
  rewrite decide_False by done. rewrite Hfault. cbv zeta.
  rewrite (stamp_loop_read_failure (length p / STAMP_BUF_SIZE)); [| |
    |done|done|done|done].
  - cbn [default from_option id fst snd]. rewrite decide_True by done.
    split; [done|apply last_opkg_msg].
  - unfold cstr, STAMP_BUF_SIZE. rewrite !length_app. cbn [length].
    assert (length p / 10 ≤ length p)%nat by (apply Nat.Div0.div_le_upper_bound; lia).
    lia.
  - unfold STAMP_BUF_SIZE in *. apply Nat.Div0.div_exact in Hmod. lia.
Qed.

(** X7: create_file_stamp either replaces the whole content of the stamp
    file by the stamp, whatever the file held and leaving every other file
    alone, and returns 0; or, when the stamp file cannot be opened for
    writing, returns -1, changes no file and logs that.  Neither way does it
    touch the handle or make a request. *)
Theorem create_file_stamp_overwrites e file_name s after w :
  NUL ∉ s →
  let c := create_file_stamp e file_name (cstr s after) w in
  (stamp_path file_name ∉ e_wr_denied e →
   c.1 = 0 ∧ w_files c.2 = <[stamp_path file_name := s]> (w_files w))
  ∧ (stamp_path file_name ∈ e_wr_denied e →
     c.1 = -1 ∧ w_files c.2 = w_files w
     ∧ last (w_trace c.2)
       = Some (EvMsg ("Failed to open file " +:+ stamp_path file_name +:+ nl)))
  ∧ w_curl c.2 = w_curl w
  ∧ body_requests (w_trace c.2) = body_requests (w_trace w).
Proof.
  intros Hnul. cbv zeta.
  destruct (create_file_stamp_frame e file_name (cstr s after) w) as (Hc & _ & _ & Hq).
  split; [|split; [|done]].
  - intros Hw. by rewrite create_file_stamp_ok.
  - intros Hw. rewrite create_file_stamp_denied by done. cbn [fst snd].
    split; [done|]. split; [done|]. apply last_opkg_msg.
Qed.

(** ** Replacing a token in a string (builds with HAVE_SSLCURL) *)

Lemma strstr_first token : ∀ str i,
  token `prefix_of` drop i str →
  (i ≤ length str)%nat →
  (∀ j, (j < i)%nat → ¬ token `prefix_of` drop j str) →
  strstr str token = Some i.
Proof.
  intros str i. revert str. induction i as [|i IH]; intros str Hpre Hi Hmin.
  - destruct str; simpl; by rewrite decide_True.
  - destruct str as [|c str]; [simpl in Hi; lia|]. cbn [strstr].
    rewrite decide_False by apply (Hmin 0%nat ltac:(lia)).
    rewrite (IH str); [done|done|simpl in Hi; lia|].
    intros j Hj. apply (Hmin (S j)). lia.
Qed.

Lemma strstr_none token : ∀ str,
  (∀ j, ¬ token `prefix_of` drop j str) → strstr str token = None.
Proof.
  induction str as [|c str IH]; intros Hno; cbn [strstr].
  - by rewrite decide_False by apply (Hno 0%nat).
  - rewrite decide_False by apply (Hno 0%nat).
    rewrite IH; [done|]. intros j. apply (Hno (S j)).
Qed.

Lemma memmove_at_app (pre mid post src : list ascii) n :
  length mid = n → (n ≤ length src)%nat →
  memmove_at (pre ++ mid ++ post) (Z.of_nat (length pre)) src (Z.of_nat n)
  = pre ++ take n src ++ post.
Proof.
  intros Hm Hs. unfold memmove_at. rewrite !Nat2Z.id.
  rewrite take_app_length. f_equal. f_equal.
  rewrite drop_app_ge by lia. replace (length pre + n - length pre)%nat with n by lia.
  subst n. by rewrite drop_app_length.
Qed.

Lemma split_buffer (buf : list ascii) a b c :
  length buf = (a + b + c + 1)%nat →
  ∃ l1 l2 l3 x, buf = l1 ++ l2 ++ l3 ++ [x]
                ∧ length l1 = a ∧ length l2 = b ∧ length l3 = c.
Proof.
  intros Hl.
  exists (take a buf), (take b (drop a buf)), (take c (drop (a + b) buf)).
  destruct (drop (a + b + c) buf) as [|x [|y rest]] eqn:Hd.
  - apply (f_equal length) in Hd. rewrite length_drop in Hd. simpl in Hd. lia.
  - exists x. rewrite !length_take, !length_drop. split; [|lia].
    rewrite <- Hd. rewrite <- (take_drop a buf) at 1. f_equal.
    rewrite <- (take_drop b (drop a buf)) at 1. f_equal.
    rewrite drop_drop. rewrite <- (take_drop c (drop (a + b) buf)) at 1. f_equal.
    by rewrite drop_drop.
  - apply (f_equal length) in Hd. rewrite length_drop in Hd. simpl in Hd. lia.
Qed.

(** The function where the token occurs. *)
Lemma replace_token_found str token replacement junk i :
  token ≠ [] →
  strstr str token = Some i →
  (i + length token ≤ length str)%nat →
  NUL ∉ str → NUL ∉ replacement →
  Z.of_nat (length str) < 2 ^ 32 →
  Z.of_nat (length str + length replacement) < 2 ^ 64 - 1 →
  replace_token_in_str str (Some token) replacement junk
  = take i str ++ replacement ++ drop (i + length token) str.
Proof.
  intros Hne Hfound Hin Hnul Hnulr Hlen32 Hlen64.
  unfold replace_token_in_str. rewrite decide_False by done. rewrite Hfound. cbv zeta.
  set (n := length str) in *. set (t := length token) in *.
  set (r := length replacement) in *.
  assert (H64 : 2 ^ 64 = 18446744073709551616) by done.
  assert (H32 : 2 ^ 32 = 4294967296) by done.
  assert (HL : size_sub (Z.of_nat n) (size_sub (Z.of_nat t) (Z.of_nat r))
               = Z.of_nat (n - t + r)).
  { unfold size_sub. rewrite Zminus_mod_idemp_r. rewrite Z.mod_small; lia. }
  assert (Hidx : to_uint (Z.of_nat i) = Z.of_nat i).
  { unfold to_uint. rewrite Z.mod_small; lia. }
  rewrite HL, Hidx.
  assert (Hcnt : size_sub (size_sub (Z.of_nat (n - t + r)) (Z.of_nat i)) (Z.of_nat r)
                 = Z.of_nat (n - t - i)).
  { unfold size_sub. rewrite Zminus_mod_idemp_l. rewrite Z.mod_small; lia. }
  rewrite Hcnt.
  assert (Hsz : size_add (Z.of_nat (n - t + r)) 1 = Z.of_nat (i + r + (n - t - i) + 1)).
  { unfold size_add. rewrite Z.mod_small; lia. }
  rewrite Hsz.
  destruct (split_buffer (xmalloc (Z.of_nat (i + r + (n - t - i) + 1)) junk)
              i r (n - t - i)) as (l1 & l2 & l3 & x & -> & H1 & H2 & H3).
  { unfold xmalloc. by rewrite length_resize, Nat2Z.id. }
  (* the three copies *)
  change 0 with (Z.of_nat (length (@nil ascii))).
  change (l1 ++ l2 ++ l3 ++ [x]) with ([] ++ l1 ++ l2 ++ l3 ++ [x]).
  rewrite memmove_at_app by (done || lia). cbn [app].
  assert (Hti : length (take i str) = i) by (rewrite length_take; lia).
  rewrite <- Hti at 2.
  rewrite memmove_at_app by (done || lia).
  rewrite (take_ge replacement) by lia.
  replace (Z.of_nat i + Z.of_nat r)
    with (Z.of_nat (length (take i str ++ replacement)))
    by (rewrite length_app; lia).
  replace (take i str ++ replacement ++ l3 ++ [x])
    with ((take i str ++ replacement) ++ l3 ++ [x]) by (by rewrite <- (assoc_L (++))).
  replace (Z.to_nat (Z.of_nat i + Z.of_nat t)) with (i + t)%nat by lia.
  rewrite memmove_at_app; [|done|rewrite length_drop; lia].
  rewrite (take_ge (drop (i + t) str)) by (rewrite length_drop; lia).
  (* the terminator *)
  rewrite Nat2Z.id.
  replace ((take i str ++ replacement) ++ drop (i + t) str ++ [x])
    with ((take i str ++ replacement ++ drop (i + t) str) ++ [x])
    by (by rewrite <- !(assoc_L (++))).
  replace (n - t + r)%nat
    with (length (take i str ++ replacement ++ drop (i + t) str) + 0)%nat
    by (rewrite !length_app, length_drop; lia).
  rewrite insert_app_r. cbn [insert list_insert].
  unfold c_string.
  change ((take i str ++ replacement ++ drop (i + t) str) ++ [NUL])
    with (cstr (take i str ++ replacement ++ drop (i + t) str) []).
  assert (Hfree : NUL ∉ take i str ++ replacement ++ drop (i + t) str).
  { rewrite !elem_of_app. intros [H|[H|H]]; [|done|].
    - apply Hnul. rewrite <- (take_drop i str). apply elem_of_app. by left.
    - apply Hnul. rewrite <- (take_drop (i + t) str). apply elem_of_app. by right. }
  rewrite strlen_cstr by done. unfold cstr. by rewrite take_app_length.
Qed.

(** X19: replace_token_in_str replaces the first occurrence of a non-empty
    token and nothing else: what precedes it and what follows it, later
    occurrences included, is kept, whatever the lengths of token and
    replacement and whatever the fresh buffer held. *)
Theorem replace_token_first_occurrence str token replacement junk i :
  token ≠ [] →
  token `prefix_of` drop i str →
  (∀ j, (j < i)%nat → ¬ token `prefix_of` drop j str) →
  NUL ∉ str → NUL ∉ replacement →
  Z.of_nat (length str) < 2 ^ 32 →
  Z.of_nat (length str + length replacement) < 2 ^ 64 - 1 →
  replace_token_in_str str (Some token) replacement junk
  = take i str ++ replacement ++ drop (i + length token) str.
Proof.
  intros Hne Hpre Hmin Hnul Hnulr H32 H64.
  assert (Hlen : (i + length token ≤ length str)%nat).
  { apply prefix_length in Hpre. rewrite length_drop in Hpre.
    destruct token; [done|]. simpl in *. lia. }
  apply replace_token_found; try done.
  apply strstr_first; [done|lia|done].
Qed.

(** X20: replace_token_in_str returns the string as it is when the token is
    a null pointer, when it is empty, and when it does not occur. *)
Theorem replace_token_nothing_to_replace str token replacement junk :
  token = None ∨ token = Some []
  ∨ (∃ tk, token = Some tk ∧ ∀ j, ¬ tk `prefix_of` drop j str) →
  replace_token_in_str str token replacement junk = str.
Proof.
  intros [->|[->|(tk & -> & Hno)]]; [done|done|].
  unfold replace_token_in_str. case_decide; [done|].
  by rewrite strstr_none.
Qed.

(** ** Concrete runs of the further properties *)

Ltac by_evaluation := apply (bool_decide_unpack _); vm_compute; exact I.

Lemma check_file_stamp_verdict_witness :
  (check_file_stamp (plain_env (ok_response None 0) []) "f"
     (cstr (chars "0123456789") []) stamped).1 = 0
  ↔ ((length (chars "0123456789") `mod` STAMP_BUF_SIZE)%nat = 0%nat
     ∧ chars "0123456789" `prefix_of` chars "0123456789abc")
    ∨ ((length (chars "0123456789") `mod` STAMP_BUF_SIZE)%nat ≠ 0%nat
       ∧ chars "0123456789abc" = chars "0123456789"
       ∧ byte_at [] (STAMP_BUF_SIZE - 1 - length (chars "0123456789") `mod` STAMP_BUF_SIZE)
         = NUL).
Proof.
  refine (proj2 (check_file_stamp_verdict (plain_env (ok_response None 0) []) "f"
                   (chars "0123456789") [] (chars "0123456789abc") stamped _ _ _ _)).
  - reflexivity.
  - split; [apply not_elem_of_empty|reflexivity].
  - by_evaluation.
  - by vm_compute.
Defined.

Lemma check_file_stamp_sound_witness :
  chars "0123456789" `prefix_of` chars "0123456789abc".
Proof.
  apply (check_file_stamp_sound faulty_env "f" (chars "0123456789") [] _ stamped).
  - reflexivity.
  - by_evaluation.
  - by vm_compute.
  - by vm_compute.
Defined.

Lemma stamp_roundtrip_block_aligned_witness :
  (check_file_stamp (plain_env (ok_response None 0) []) "f"
     (cstr (chars "0123456789") (chars "AAAA"))
     (create_file_stamp (plain_env (ok_response None 0) []) "f"
        (cstr (chars "0123456789") (chars "BBBB")) stamped).2).1 = 0.
Proof.
  apply stamp_roundtrip_block_aligned.
  - apply not_elem_of_empty.
  - split; [apply not_elem_of_empty|reflexivity].
  - by_evaluation.
  - by vm_compute.
  - reflexivity.
Defined.

Lemma check_file_stamp_errors_witness :
  check_file_stamp (plain_env (ok_response None 0) []) "f" (cstr (chars "abc") []) (start ∅)
  = (-1, start ∅).
Proof.
  refine (proj1 (check_file_stamp_errors (plain_env (ok_response None 0) []) "f"
                   (chars "abc") [] (start ∅) _ _) _).
  - by_evaluation.
  - by vm_compute.
  - reflexivity.
Defined.

Lemma check_file_stamp_read_failure_witness :
  (check_file_stamp faulty_env "f" (cstr (chars "0123456789" ++ chars "abc") []) stamped).1
  = -1.
Proof.
  refine (proj1 (check_file_stamp_read_failure faulty_env "f" (chars "0123456789")
                   (chars "abc") (chars "abc") [] stamped _ _ _ _ _ _ _ _)).
  - reflexivity.
  - apply not_elem_of_empty.
  - reflexivity.
  - reflexivity.
  - done.
  - done.
  - by_evaluation.
  - by vm_compute.
Defined.

Lemma create_file_stamp_overwrites_witness :
  w_files (create_file_stamp (plain_env (ok_response None 0) []) "f"
             (cstr (chars "xyz") []) stamped).2
  = <[ "f.@stamp" := chars "xyz" ]> (w_files stamped).
Proof.
  refine (proj2 (proj1 (create_file_stamp_overwrites (plain_env (ok_response None 0) []) "f"
                          (chars "xyz") [] stamped _) _)).
  - by_evaluation.
  - apply not_elem_of_empty.
Defined.

Lemma header_write_extracts_value_witness :
  header_write (chars "ETag: W/" ++ DQUOTE :: chars "abc" ++ DQUOTE :: [CR; LF])
    (Some (chars "old"))
  = Some (chars "abc").
Proof.
  apply header_write_extracts_value.
  - reflexivity.
  - by_evaluation.
  - by_evaluation.
  - by_evaluation.
  - done.
  - by_evaluation.
Defined.

Lemma header_write_keeps_sink_witness :
  header_write (chars "ETag: " ++ DQUOTE :: DQUOTE :: [CR; LF]) (Some (chars "old"))
  = Some (chars "old").
Proof.
  apply header_write_keeps_sink. right. right.
  exists (chars "ETag: "), [CR; LF]. split; [reflexivity|]. split; by_evaluation.
Defined.

Lemma marker_is_well_formed_witness : chars "abc" ≠ [] ∧ NUL ∉ chars "abc".
Proof.
  apply (marker_is_well_formed (ok_response (Some "abc") 5)). reflexivity.
Defined.

Lemma last_marker_wins_witness :
  etag_of (mkResponse 0
             ([etag_line "old"]
              ++ (chars "etag: " ++ DQUOTE :: chars "new" ++ DQUOTE :: [CR; LF])
                 :: [chars "Content-Length: 5" ++ [CR; LF]])
             5 "" [])
  = Some (chars "new").
Proof.
  apply last_marker_wins.
  - reflexivity.
  - by_evaluation.
  - by_evaluation.
  - by_evaluation.
  - done.
  - by_evaluation.
  - repeat constructor.
Defined.

Lemma fresh_cache_is_left_alone_witness :
  w_files (opkg_validate_cached_file (plain_env (ok_response (Some "abc") 5) [])
             "u" "f" cached).2 = w_files cached.
Proof.
  refine (proj1 (fresh_cache_is_left_alone (plain_env (ok_response (Some "abc") 5) [])
                   "u" "f" cached _ _ _)).
  - reflexivity.
  - apply not_elem_of_empty.
  - by vm_compute.
Defined.

Lemma absent_cache_starts_empty_witness :
  w_files (opkg_validate_cached_file (plain_env (ok_response (Some "abc") 1000) [])
             "u" "f" (start ∅)).2 !! "f" = Some [].
Proof.
  refine (proj1 (absent_cache_starts_empty (plain_env (ok_response (Some "abc") 1000) [])
                   "u" "f" (start ∅) _ _ _)).
  - reflexivity.
  - reflexivity.
  - apply not_elem_of_empty.
Defined.


Lemma download_resumes_cache_witness :
  w_files (opkg_download_backend (serving_env "payload") "u" "f" true cached).2 !! "f"
  = Some (chars "hello" ++ chars "payload").
Proof.
  refine (proj1 (proj2 (proj2 (proj2
            (download_resumes_cache (serving_env "payload") "u" "f" cached _ _))))).
  - reflexivity.
  - by vm_compute.
Defined.

Lemma resume_offset_outlives_download_witness :
  ∃ h', body_requests
          (w_trace (opkg_download_backend (serving_env "payload") "v" "g" false
                      (opkg_download_backend (serving_env "payload") "u" "f" true cached).2).2)
        = body_requests
            (w_trace (opkg_download_backend (serving_env "payload") "u" "f" true cached).2)
          ++ [h']
        ∧ opt_url h' = "v"
        ∧ opt_writedata h' = Some "g"
        ∧ opt_resume_from h' = 5
        ∧ w_files (opkg_download_backend (serving_env "payload") "v" "g" false
                     (opkg_download_backend (serving_env "payload") "u" "f" true cached).2).2
          !! "g" = Some (r_body (e_server (serving_env "payload") h')).
Proof.
  destruct (resume_offset_outlives_download (serving_env "payload") "u" "f" "v" "g" cached)
    as (h' & H1 & H2 & H3 & H4 & H5).
  - reflexivity.
  - by vm_compute.
  - apply not_elem_of_empty.
  - exists h'. split; [exact H1|]. split; [exact H2|]. split; [exact H3|].
    split; [exact H4|]. apply H5, not_elem_of_empty.
Defined.

Lemma replace_token_first_occurrence_witness :
  replace_token_in_str (chars "ftps://host/ftps://x") (Some (chars "ftps://"))
    (chars "ftp://") (chars "junk")
  = chars "ftp://host/ftps://x".
Proof.
  refine (replace_token_first_occurrence (chars "ftps://host/ftps://x") (chars "ftps://")
            (chars "ftp://") (chars "junk") 0 _ _ _ _ _ _ _).
  - done.
  - by exists (chars "host/ftps://x").
  - intros j Hj. lia.
  - by_evaluation.
  - by_evaluation.
  - by vm_compute.
  - by vm_compute.
Defined.

Lemma replace_token_nothing_to_replace_witness :
  replace_token_in_str (chars "http://host/x") (Some []) (chars "ftp://") []
  = chars "http://host/x".
Proof. apply replace_token_nothing_to_replace. right. by left. Defined.
